(** * django-cardano: transaction construction and fee balancing

    A shallow embedding of the UTxO selection helpers
    ([django_cardano/shortcuts.py]), the wallet balance and the wallet
    use-cases ([django_cardano/models.py]), the minimum fee parser
    ([MIN_FEE_RE] in [django_cardano/__init__.py]) and the minting policy
    manager.  The external [cardano-cli] process is an oracle ([Env]); every
    invocation of it is recorded in a trace. *)

From Stdlib Require Import ZArith List String Ascii Bool Lia Sorted Permutation.
Import ListNotations.
Open Scope Z_scope.

(** ** Data model *)

(** [settings.LOVELACE_UNIT] *)
Definition lovelace_unit : string := "lovelace"%string.

(** [settings.DEFAULT_TRANSACTION_TTL] *)
Definition DEFAULT_TRANSACTION_TTL : Z := 1000.

(** A Python dict from asset id to quantity, in insertion order. *)
Definition TokenDict := list (string * Z).

Fixpoint lookup (k : string) (d : TokenDict) : option Z :=
  match d with
  | [] => None
  | (k', v) :: d' => if String.eqb k k' then Some v else lookup k d'
  end.

(** One entry of [AbstractWallet.utxos]: [{'TxHash', 'TxIx', 'Tokens'}]. *)
Record Utxo := mkUtxo {
  TxHash : string;
  TxIx : string;
  Tokens : TokenDict
}.

Definition utxo_ref (u : Utxo) : string * string := (TxHash u, TxIx u).

(** ** [shortcuts.filter_utxos] *)

Definition in_asset_types (a : string) (asset_types : list string) : bool :=
  existsb (String.eqb a) asset_types.

Fixpoint filter_utxos (utxos : list Utxo) (include exclude : option string)
  : list Utxo :=
  match utxos with
  | [] => []
  | utxo :: rest =>
      let asset_types := map fst (Tokens utxo) in
      let included :=
        match include with
        | Some i =>
            if String.eqb i lovelace_unit
            then Nat.eqb (List.length asset_types) 1
            else in_asset_types i asset_types
        | None => false
        end in
      let excluded :=
        match exclude with
        | Some e =>
            if String.eqb e lovelace_unit
            then if Nat.ltb 1 (List.length asset_types) then true
                 else negb (in_asset_types e asset_types)
            else false
        | None => false
        end in
      (if included then [utxo] else [])
        ++ (if excluded then [utxo] else [])
        ++ filter_utxos rest include exclude
  end.

(** ** [shortcuts.sort_utxos]

    [sorted(utxos, key=lambda v: v['Tokens'][type], reverse=(order == 'desc'))]:
    the keys are computed first (a missing key raises [KeyError], here
    [None]); Python's sort is stable, also with [reverse=True]. *)

Fixpoint decorate (type : string) (utxos : list Utxo) : option (list (Z * Utxo)) :=
  match utxos with
  | [] => Some []
  | u :: us =>
      match lookup type (Tokens u), decorate type us with
      | Some k, Some d => Some ((k, u) :: d)
      | _, _ => None
      end
  end.

(** [before order a b]: key [a] is placed strictly before key [b]. *)
Definition before (order : string) (a b : Z) : bool :=
  if String.eqb order "desc" then b <? a else a <? b.

Fixpoint insert_by (order : string) (x : Z * Utxo) (l : list (Z * Utxo))
  : list (Z * Utxo) :=
  match l with
  | [] => [x]
  | y :: ys =>
      if before order (fst y) (fst x) then y :: insert_by order x ys
      else x :: y :: ys
  end.

Fixpoint sort_by (order : string) (l : list (Z * Utxo)) : list (Z * Utxo) :=
  match l with
  | [] => []
  | x :: xs => insert_by order x (sort_by order xs)
  end.

Definition sort_utxos (utxos : list Utxo) (type order : string) : option (list Utxo) :=
  match decorate type utxos with
  | Some d => Some (map snd (sort_by order d))
  | None => None
  end.

(** [sort_utxos(utxos)] with its default arguments
    [type=settings.LOVELACE_UNIT, order='desc']. *)
Definition sort_utxos_default (utxos : list Utxo) : option (list Utxo) :=
  sort_utxos utxos lovelace_unit "desc".

(** ** Greedy accumulation (the loop of [send_lovelace])

    Each UTxO is appended, its quantity added to the running total, and the
    loop breaks once the total reaches the target. *)
Fixpoint accumulate (type : string) (target total : Z) (utxos : list Utxo)
  : option (list Utxo * Z) :=
  match utxos with
  | [] => Some ([], total)
  | u :: rest =>
      match lookup type (Tokens u) with
      | None => None
      | Some q =>
          let total' := total + q in
          if target <=? total' then Some ([u], total')
          else match accumulate type target total' rest with
               | Some (sel, t) => Some (u :: sel, t)
               | None => None
               end
      end
  end.

(** The UTxO selector as [send_lovelace] composes it:
    [filter_utxos(include=type)], then [sort_utxos], then the greedy loop. *)
Definition select_utxos (utxos : list Utxo) (type : string) (target : Z)
    (order : string) : option (list Utxo * Z) :=
  match sort_utxos (filter_utxos utxos (Some type) None) type order with
  | Some sorted => accumulate type target 0 sorted
  | None => None
  end.

(** ** [AbstractWallet.balance]

    [all_tokens = defaultdict(int)]; for every UTxO and every
    [(token_id, token_count)] of its [Tokens], [all_tokens[token_id] += token_count].
    A key seen for the first time is appended with value [0 + token_count]. *)

Fixpoint dict_add (k : string) (v : Z) (d : TokenDict) : TokenDict :=
  match d with
  | [] => [(k, 0 + v)]
  | (k', v') :: d' =>
      if String.eqb k k' then (k', v' + v) :: d' else (k', v') :: dict_add k v d'
  end.

Definition add_utxo_tokens (all_tokens : TokenDict) (utxo_tokens : TokenDict) : TokenDict :=
  fold_left (fun acc kv => dict_add (fst kv) (snd kv) acc) utxo_tokens all_tokens.

Definition balance_tokens (utxos : list Utxo) : TokenDict :=
  fold_left (fun acc u => add_utxo_tokens acc (Tokens u)) utxos [].

(** The quantity of an asset in a dict ([0] when the key is absent). *)
Definition qty (k : string) (d : TokenDict) : Z :=
  match lookup k d with Some v => v | None => 0 end.

Definition holds (k : string) (u : Utxo) : bool := in_asset_types k (map fst (Tokens u)).

(** ** [MIN_FEE_RE = re.compile(r'(\d+)\s+Lovelace')] and
    [int(MIN_FEE_RE.match(raw_response)[1])]

    [re.match] anchors at the start of the string only.  [\d] and [\s] are
    taken over ASCII: the digits 0-9, and the characters Python's [str.isspace]
    accepts below 128 (9-13 and 28-32). *)

Definition is_digit (c : ascii) : bool :=
  let n := nat_of_ascii c in Nat.leb 48 n && Nat.leb n 57.

Definition is_space (c : ascii) : bool :=
  let n := nat_of_ascii c in
  (Nat.leb 9 n && Nat.leb n 13) || (Nat.leb 28 n && Nat.leb n 32).

(** [span p s]: the longest prefix of [s] whose characters satisfy [p],
    and the rest. *)
Fixpoint span (p : ascii -> bool) (s : string) : string * string :=
  match s with
  | EmptyString => (EmptyString, EmptyString)
  | String c s' =>
      if p c then let (a, b) := span p s' in (String c a, b)
      else (EmptyString, s)
  end.

(** The group [match[1]] of [MIN_FEE_RE.match(s)], or [None] when the
    match object is [None]. *)
Definition min_fee_match (s : string) : option string :=
  let (digits, r1) := span is_digit s in
  let (spaces, r2) := span is_space r1 in
  if negb (String.eqb digits EmptyString) && negb (String.eqb spaces EmptyString)
     && String.prefix "Lovelace" r2
  then Some digits else None.

(** [int(...)] of a string of decimal digits. *)
Fixpoint digits_value_acc (acc : Z) (s : string) : Z :=
  match s with
  | EmptyString => acc
  | String c s' =>
      digits_value_acc (acc * 10 + Z.of_nat (nat_of_ascii c - 48)) s'
  end.

Definition digits_value (s : string) : Z := digits_value_acc 0 s.

(** The parse step of [AbstractTransaction.calculate_min_fee]: [None] is
    the [TypeError] raised by subscripting the [None] match. *)
Definition parse_min_fee (raw_response : string) : option Z :=
  match min_fee_match raw_response with
  | Some d => Some (digits_value d)
  | None => None
  end.

(** ** Token bundle size and minimum dust

    [CardanoUtils.token_bundle_info], [token_bundle_size] and
    [min_token_dust_value] are called by [models.py] and [tests.py] but their
    code is not in this source tree. *)

(** A token bundle as its (quantity, asset id) parts. *)
Definition Bundle := list (Z * string).

Fixpoint split_at_char (c : ascii) (s : string) : string * option string :=
  match s with
  | EmptyString => (EmptyString, None)
  | String c' s' =>
      if Ascii.eqb c c' then (EmptyString, Some s')
      else let (a, b) := split_at_char c s' in (String c' a, b)
  end.

(** Policy id and asset name of [<policy_id>.<asset_name>]. *)
Definition policy_of (asset_id : string) : string := fst (split_at_char "." asset_id).
Definition asset_name_of (asset_id : string) : string :=
  match snd (split_at_char "." asset_id) with Some n => n | None => EmptyString end.

Definition ceil_div (a b : Z) : Z := (a + b - 1) / b.

(** Modelled from the spec: the byte count of [CardanoUtils.token_bundle_size]
    (section 4.2): [numAssets*12 + sumAssetNameLengths
    + sum of ceil(len_hex_bytes(policyId)) over distinct policy ids]. *)
Definition bundle_byte_count (bundle : Bundle) : Z :=
  let asset_ids := map snd bundle in
  let distinct_policy_ids := nodup string_dec (map policy_of asset_ids) in
  let distinct_asset_names := nodup string_dec (map asset_name_of asset_ids) in
  let sum_asset_name_lengths :=
    fold_right (fun n acc => Z.of_nat (String.length n) + acc) 0 distinct_asset_names in
  let policy_bytes :=
    fold_right (fun p acc => ceil_div (Z.of_nat (String.length p)) 2 + acc) 0
      distinct_policy_ids in
  Z.of_nat (List.length asset_ids) * 12 + sum_asset_name_lengths + policy_bytes.

(** Modelled from the spec: [bundleSizeWords = 6 + ceil((byteCount + 7) / 8)]. *)
Definition bundle_size_words (bundle : Bundle) : Z :=
  6 + ceil_div (bundle_byte_count bundle + 7) 8.

(** The double quote character. *)
Definition quote_char : ascii := ascii_of_nat 34.

(** [f'"{s}"'] *)
Definition quoted (s : string) : string :=
  String quote_char (s ++ String quote_char EmptyString).

(** Modelled from the spec: the parse of a token bundle string (section 4.2):
    quotes removed, whitespace-separated [<quantity> <asset_id>] pairs. *)
Fixpoint words_acc (cur : string) (s : string) : list string :=
  match s with
  | EmptyString => if String.eqb cur EmptyString then [] else [cur]
  | String c s' =>
      if Ascii.eqb c quote_char then words_acc cur s'
      else if Ascii.eqb c " " then
        (if String.eqb cur EmptyString then [] else [cur]) ++ words_acc EmptyString s'
      else words_acc (cur ++ String c EmptyString) s'
  end.

Fixpoint pair_up (ws : list string) : Bundle :=
  match ws with
  | q :: a :: rest => (digits_value q, a) :: pair_up rest
  | _ => []
  end.

Definition parse_bundle (token_bundle : string) : Bundle :=
  pair_up (words_acc EmptyString token_bundle).

(** The other reading of the parse: words split at blanks only, so the
    quotes stay attached to the quantity and to the asset id
    ([str.split()] on the bundle). *)
Fixpoint words_keep_quotes (cur : string) (s : string) : list string :=
  match s with
  | EmptyString => if String.eqb cur EmptyString then [] else [cur]
  | String c s' =>
      if Ascii.eqb c " " then
        (if String.eqb cur EmptyString then [] else [cur]) ++ words_keep_quotes EmptyString s'
      else words_keep_quotes (cur ++ String c EmptyString) s'
  end.

Definition parse_bundle_quotes_kept (token_bundle : string) : Bundle :=
  pair_up (words_keep_quotes EmptyString token_bundle).

(** Modelled from the spec: [CardanoUtils.token_bundle_size(token_bundle)]. *)
Definition token_bundle_size (token_bundle : string) : Z :=
  bundle_size_words (parse_bundle token_bundle).

(** [settings.UTXO_ENTRY_SIZE_WITHOUT_VAL] and [settings.COIN_SIZE]. *)
Definition UTXO_ENTRY_SIZE_WITHOUT_VAL : Z := 27.
Definition COIN_SIZE : Z := 0.

(** Modelled from the spec: [CardanoUtils.min_token_dust_value] (section 4.2):
    [max(minUtxoValue, floor(minUtxoValue / adaOnlyUtxoSize)
                       * (utxoEntrySizeWithoutVal + bundleSizeWords))]. *)
Definition min_token_dust_value (min_utxo_value : Z) (bundle : Bundle) : Z :=
  let ada_only_utxo_size := UTXO_ENTRY_SIZE_WITHOUT_VAL + COIN_SIZE in
  Z.max min_utxo_value
    ((min_utxo_value / ada_only_utxo_size)
       * (UTXO_ENTRY_SIZE_WITHOUT_VAL + bundle_size_words bundle)).

(** [TOKEN_BUNDLE_PARTS] and [DEFAULT_TOKEN_BUNDLE] of [tests.py]. *)
Definition TOKEN_BUNDLE_PARTS : list string := map quoted [
  "1 fe1249f6a018ccc7a620df6226d6b9b9a63555593051b79885dc2e27";
  "1 fe1249f6a018ccc7a620df6226d6b9b9a63555593051b79885dc2e28.TestNFT";
  "1 fe1249f6a018ccc7a620df6226d6b9b9a63555593051b79885dc2e29.TestNFT2";
  "1 fe1249f6a018ccc7a620df6226d6b9b9a63555593051b79885dc2e29.TestNFT3";
  "1 fe1249f6a018ccc7a620df6226d6b9b9a63555593051b79885dc2e29.TestNFT4"]%string.

Definition DEFAULT_TOKEN_BUNDLE : string := String.concat " " TOKEN_BUNDLE_PARTS.

(** ** Transactions and the cardano-cli commands *)

(** A [('tx-out', f'{address}+{lovelace}')] or
    [('tx-out', f'{address}+{lovelace}+"{quantity} {asset_id}"')] argument. *)
Record TxOut := mkTxOut {
  out_address : string;
  out_lovelace : Z;
  out_bundle : Bundle
}.

(** The [*tx_args] of [transaction build-raw]: [('tx-in', f'{hash}#{ix}')]
    and [('tx-out', ...)]. *)
Inductive TxArg :=
| ArgTxIn (tx_hash tx_index : string)
| ArgTxOut (o : TxOut).

(** The options of one [transaction build-raw] invocation; its [out-file]
    holds the resulting transaction body. *)
Record BuildArgs := mkBuildArgs {
  ba_args : list TxArg;
  ba_fee : Z;
  ba_invalid_hereafter : option Z;
  ba_mint : option Bundle;
  ba_metadata : option string;
  ba_minting_script : bool
}.

Inductive Cmd :=
| QueryUtxo (address : string)
| QueryProtocolParameters
| QueryTip
| BuildRaw (b : BuildArgs)
| CalculateMinFee (tx_in_count tx_out_count witness_count : nat)
| Sign (policy_signing_key : bool)
| TxId
| Submit
| AddressKeyGen
| AddressKeyHash
| TransactionPolicyId.

Record ProtocolParameters := mkProtocolParameters {
  minUTxOValue : Z;
  txFeeFixed : Z;
  txFeePerByte : Z
}.

(** The node and its command line tool, as seen by this code: the UTxO
    snapshot of the wallet address, the protocol parameters, the chain tip,
    the raw output of [calculate-min-fee], the outputs of [txid],
    [key-hash] and [policyid], which invocations exit with an error, and
    which passwords open the encrypted wallet and policy signing keys. *)
Record Env := mkEnv {
  env_utxos : list Utxo;
  env_params : ProtocolParameters;
  env_tip_slot : Z;
  env_min_fee_response : string;
  env_tx_id : string;
  env_key_hash : string;
  env_policy_id : string;
  env_fails : Cmd -> bool;
  env_opens_wallet_key : string -> bool;
  env_opens_policy_key : string -> bool
}.

(** [CardanoError], tagged by its origin. *)
Inductive CardanoError :=
| InsufficientFunds (reason : string)
| CliFailure (c : Cmd)
| KeyError (key : string)
| IndexError
| TypeError
| MissingTxBody
| SigningKeyDecryptionFailure
| PolicySigningKeyDecryptionFailure.

Inductive Result (A : Type) :=
| Ok (a : A)
| Raise (e : CardanoError).
Arguments Ok {A} a.
Arguments Raise {A} e.

(** Computations raise a [CardanoError] or return a value; each records the
    cardano-cli commands it invoked, in order. *)
Definition M (A : Type) : Type := (Result A * list Cmd)%type.

Definition ret {A} (a : A) : M A := (Ok a, []).
Definition raise {A} (e : CardanoError) : M A := (Raise e, []).

Definition bind {A B} (m : M A) (f : A -> M B) : M B :=
  match m with
  | (Ok a, w) => let (r, w') := f a in (r, w ++ w')
  | (Raise e, w) => (Raise e, w)
  end.

Notation "x <- m ;; k" := (bind m (fun x => k))
  (at level 61, m at next level, right associativity).
Notation "m ;;; k" := (bind m (fun _ => k))
  (at level 61, right associativity).

Definition lift_key {A} (k : string) (o : option A) : M A :=
  match o with Some a => ret a | None => raise (KeyError k) end.

(** [utxo['Tokens'][k]] *)
Definition get_token (u : Utxo) (k : string) : M Z := lift_key k (lookup k (Tokens u)).

(** [outputs[-1] = o] *)
Fixpoint replace_last {A} (l : list A) (o : A) : option (list A) :=
  match l with
  | [] => None
  | [_] => Some [o]
  | x :: l' => match replace_last l' o with Some r => Some (x :: r) | None => None end
  end.

Definition set_last {A} (l : list A) (o : A) : M (list A) :=
  match replace_last l o with Some r => ret r | None => raise IndexError end.

(** ** Models *)

Inductive PolicyScript :=
| ScriptSig (keyHash : string)
| ScriptAfter (slot : Z)
| ScriptBefore (slot : Z).

Record MintingPolicy := mkMintingPolicy {
  policy_id : string;
  policy_scripts : list PolicyScript;
  policy_files : list string
}.

Inductive TransactionTypes :=
| LOVELACE_TRANSFER | TOKEN_TRANSFER | TOKEN_MINT | TOKEN_CONSOLIDATION
| LOVELACE_PARTITION.

Record Transaction := mkTransaction {
  tx_type : TransactionTypes;
  tx_inputs : list (string * string);
  tx_outputs : list TxOut;
  tx_metadata : option string;
  tx_minting_policy : option MintingPolicy;
  tx_minting_password : option string;
  tx_draft : option BuildArgs;
  tx_id : option string;
  tx_saved : bool
}.

Definition new_transaction (t : TransactionTypes) (metadata : option string) : Transaction :=
  mkTransaction t [] [] metadata None None None None false.

Definition set_inputs (tx : Transaction) (ins : list (string * string)) : Transaction :=
  mkTransaction (tx_type tx) ins (tx_outputs tx) (tx_metadata tx) (tx_minting_policy tx)
    (tx_minting_password tx) (tx_draft tx) (tx_id tx) (tx_saved tx).

Definition set_outputs (tx : Transaction) (outs : list TxOut) : Transaction :=
  mkTransaction (tx_type tx) (tx_inputs tx) outs (tx_metadata tx) (tx_minting_policy tx)
    (tx_minting_password tx) (tx_draft tx) (tx_id tx) (tx_saved tx).

Definition set_minting (tx : Transaction) (p : MintingPolicy) (pw : option string) : Transaction :=
  mkTransaction (tx_type tx) (tx_inputs tx) (tx_outputs tx) (tx_metadata tx) (Some p)
    pw (tx_draft tx) (tx_id tx) (tx_saved tx).

Definition set_draft (tx : Transaction) (b : BuildArgs) : Transaction :=
  mkTransaction (tx_type tx) (tx_inputs tx) (tx_outputs tx) (tx_metadata tx)
    (tx_minting_policy tx) (tx_minting_password tx) (Some b) (tx_id tx) (tx_saved tx).

Definition set_tx_id (tx : Transaction) (i : string) : Transaction :=
  mkTransaction (tx_type tx) (tx_inputs tx) (tx_outputs tx) (tx_metadata tx)
    (tx_minting_policy tx) (tx_minting_password tx) (tx_draft tx) (Some i) (tx_saved tx).

(** [transaction.save()] *)
Definition save (tx : Transaction) : Transaction :=
  mkTransaction (tx_type tx) (tx_inputs tx) (tx_outputs tx) (tx_metadata tx)
    (tx_minting_policy tx) (tx_minting_password tx) (tx_draft tx) (tx_id tx) true.

(** [AbstractTransaction.tx_args]: [self.inputs + self.outputs]. *)
Definition tx_args (tx : Transaction) : list TxArg :=
  map (fun r => ArgTxIn (fst r) (snd r)) (tx_inputs tx) ++ map ArgTxOut (tx_outputs tx).

Record Wallet := mkWallet { payment_address : string }.

Definition truthy (s : string) : bool := negb (String.eqb s EmptyString).

Section Cardano.

Variable env : Env.

(** [CardanoCLI.run(c)]: the command is invoked (and recorded) whether or
    not it succeeds; a failing invocation raises [CardanoError]. *)
Definition cli_run (c : Cmd) : M unit :=
  if env_fails env c then (Raise (CliFailure c), [c]) else (Ok tt, [c]).

(** [CardanoUtils.refresh_protocol_parameters()] *)
Definition refresh_protocol_parameters : M ProtocolParameters :=
  cli_run QueryProtocolParameters ;;; ret (env_params env).

(** [int(CardanoUtils.query_tip()['slot'])] *)
Definition query_tip_slot : M Z :=
  cli_run QueryTip ;;; ret (env_tip_slot env).

(** [AbstractWallet.utxos] *)
Definition wallet_utxos (w : Wallet) : M (list Utxo) :=
  cli_run (QueryUtxo (payment_address w)) ;;; ret (env_utxos env).

(** [AbstractWallet.lovelace_utxos] *)
Definition wallet_lovelace_utxos (w : Wallet) : M (list Utxo) :=
  utxos <- wallet_utxos w ;; ret (filter_utxos utxos (Some lovelace_unit) None).

(** [AbstractWallet.balance] *)
Definition balance (w : Wallet) : M (TokenDict * list Utxo) :=
  utxos <- wallet_utxos w ;; ret (balance_tokens utxos, utxos).

(** [CardanoUtils.min_token_dust_value(token_bundle)] over the cached
    protocol parameters. *)
Definition min_dust (token_bundle : Bundle) : Z :=
  min_token_dust_value (minUTxOValue (env_params env)) token_bundle.

(** [AbstractTransaction.generate_draft(kwargs)]: [fee] is forced to [0]
    and no [invalid-hereafter] is passed; the body is written to
    [transaction.draft]. *)
Definition generate_draft (tx : Transaction) (mint : option Bundle) : M Transaction :=
  let b := mkBuildArgs (tx_args tx) 0 None mint (tx_metadata tx)
             (if tx_minting_policy tx then true else false) in
  cli_run (BuildRaw b) ;;; ret (set_draft tx b).

(** [AbstractTransaction.calculate_min_fee()] *)
Definition calculate_min_fee (tx : Transaction) : M Z :=
  match tx_draft tx with
  | None => raise MissingTxBody
  | Some _ =>
      refresh_protocol_parameters ;;;
      cli_run (CalculateMinFee (List.length (tx_inputs tx)) (List.length (tx_outputs tx))
                 (if tx_minting_policy tx then 2 else 1)%nat) ;;;
      match parse_min_fee (env_min_fee_response env) with
      | Some fee => ret fee
      | None => raise TypeError
      end
  end.

(** [if not invalid_hereafter: invalid_hereafter = current_slot + DEFAULT_TRANSACTION_TTL] *)
Definition ttl_slot (invalid_hereafter : option Z) : M Z :=
  match invalid_hereafter with
  | Some s => if Z.eqb s 0
              then (slot <- query_tip_slot ;; ret (slot + DEFAULT_TRANSACTION_TTL))
              else ret s
  | None => slot <- query_tip_slot ;; ret (slot + DEFAULT_TRANSACTION_TTL)
  end.

(** [AbstractTransaction.submit(wallet, fee, password, invalid_hereafter, **tx_kwargs)] *)
Definition submit (tx : Transaction) (w : Wallet) (fee : Z) (password : string)
    (invalid_hereafter : option Z) (mint : option Bundle) : M Transaction :=
  ih <- ttl_slot invalid_hereafter ;;
  cli_run (BuildRaw (mkBuildArgs (tx_args tx) fee (Some ih) mint (tx_metadata tx)
                       (if tx_minting_policy tx then true else false))) ;;;
  (if env_opens_wallet_key env password then ret tt
   else raise SigningKeyDecryptionFailure) ;;;
  policy_key <- (match tx_minting_policy tx, tx_minting_password tx with
                 | Some _, Some mp =>
                     if truthy mp then
                       (if env_opens_policy_key env mp then ret true
                        else raise PolicySigningKeyDecryptionFailure)
                     else ret false
                 | _, _ => ret false
                 end) ;;
  cli_run (Sign policy_key) ;;;
  cli_run TxId ;;;
  cli_run Submit ;;;
  ret (set_tx_id tx (env_tx_id env)).

(** *** [AbstractWallet.send_lovelace] *)
Definition send_lovelace (w : Wallet) (quantity : Z) (to_address : string)
    (password : option string) : M Transaction :=
  protocol_parameters <- refresh_protocol_parameters ;;
  let estimated_tx_fee := txFeeFixed protocol_parameters in
  let transaction := new_transaction LOVELACE_TRANSFER None in
  lovelace_utxos <- wallet_lovelace_utxos w ;;
  sorted_lovelace_utxos <- lift_key lovelace_unit (sort_utxos_default lovelace_utxos) ;;
  acc <- lift_key lovelace_unit
           (accumulate lovelace_unit (quantity + estimated_tx_fee) 0 sorted_lovelace_utxos) ;;
  let (selected, total_lovelace_being_sent) := acc in
  let transaction := set_inputs transaction (map utxo_ref selected) in
  let transaction := set_outputs transaction
    [mkTxOut to_address quantity []; mkTxOut (payment_address w) total_lovelace_being_sent []] in
  transaction <- generate_draft transaction None ;;
  match password with
  | Some pw =>
      if truthy pw then
        tx_fee <- calculate_min_fee transaction ;;
        let lovelace_to_return := total_lovelace_being_sent - quantity - tx_fee in
        outputs <- set_last (tx_outputs transaction)
                     (mkTxOut (payment_address w) lovelace_to_return []) ;;
        transaction <- submit (set_outputs transaction outputs) w tx_fee pw None None ;;
        ret (save transaction)
      else ret transaction
  | None => ret transaction
  end.

(** The loop of [send_tokens] over the token UTxOs: accumulate the tokens and
    the lovelace of each, and stop once [total_tokens_being_sent >= quantity]. *)
Fixpoint take_tokens (asset_id : string) (quantity tokens lovelace : Z) (utxos : list Utxo)
  : M (list Utxo * Z * Z) :=
  match utxos with
  | [] => ret ([], tokens, lovelace)
  | u :: rest =>
      q <- get_token u asset_id ;;
      l <- get_token u lovelace_unit ;;
      let tokens' := tokens + q in
      let lovelace' := lovelace + l in
      if quantity <=? tokens' then ret ([u], tokens', lovelace')
      else r <- take_tokens asset_id quantity tokens' lovelace' rest ;;
           let '(sel, t, lv) := r in ret (u :: sel, t, lv)
  end.

(** *** [AbstractWallet.send_tokens] *)
Definition send_tokens (w : Wallet) (asset_id : string) (quantity : Z) (to_address : string)
    (password : option string) : M Transaction :=
  utxos <- wallet_utxos w ;;
  lovelace_utxos <- wallet_lovelace_utxos w ;;
  sorted_lovelace_utxos <- lift_key lovelace_unit (sort_utxos_default lovelace_utxos) ;;
  token_utxos <- lift_key asset_id
                   (sort_utxos (filter_utxos utxos (Some asset_id) None) asset_id "desc") ;;
  match sorted_lovelace_utxos with
  | [] => raise (InsufficientFunds "Insufficient ADA funds to complete transaction")
  | lovelace_utxo :: _ =>
      let transaction := new_transaction TOKEN_TRANSFER None in
      total_lovelace <- get_token lovelace_utxo lovelace_unit ;;
      r <- take_tokens asset_id quantity 0 total_lovelace token_utxos ;;
      let '(token_inputs, total_tokens_being_sent, total_lovelace_being_sent) := r in
      let transaction :=
        set_inputs transaction (utxo_ref lovelace_utxo :: map utxo_ref token_inputs) in
      if total_tokens_being_sent <? quantity
      then raise (InsufficientFunds "Insufficient tokens")
      else
        let token_bundle := [(quantity, asset_id)] in
        let token_dust := min_dust token_bundle in
        let outputs := [mkTxOut to_address token_dust token_bundle] in
        let lovelace_to_return := total_lovelace_being_sent - token_dust in
        let tokens_to_return := total_tokens_being_sent - quantity in
        let '(outputs, lovelace_to_return) :=
          if 0 <? tokens_to_return then
            let change_bundle := [(tokens_to_return, asset_id)] in
            (outputs ++ [mkTxOut (payment_address w) (min_dust change_bundle) change_bundle],
             lovelace_to_return - min_dust change_bundle)
          else (outputs, lovelace_to_return) in
        let transaction := set_outputs transaction
          (outputs ++ [mkTxOut (payment_address w) lovelace_to_return []]) in
        transaction <- generate_draft transaction None ;;
        match password with
        | Some pw =>
            if truthy pw then
              tx_fee <- calculate_min_fee transaction ;;
              outputs <- set_last (tx_outputs transaction)
                           (mkTxOut (payment_address w) (lovelace_to_return - tx_fee) []) ;;
              transaction <- submit (set_outputs transaction outputs) w tx_fee pw None None ;;
              ret (save transaction)
            else ret transaction
        | None => ret transaction
        end
  end.

(** [del all_tokens[k]] (the key was just read through the [defaultdict],
    so it is present). *)
Fixpoint dict_del (k : string) (d : TokenDict) : TokenDict :=
  match d with
  | [] => []
  | (k', v) :: d' => if String.eqb k k' then d' else (k', v) :: dict_del k d'
  end.

(** The loop of [consolidate_utxos] over [all_tokens.items()]: one output
    per asset, carrying its dust, deducted from the remaining lovelace. *)
Fixpoint token_outputs (address : string) (tokens : TokenDict) (remaining_lovelace : Z)
  : list TxOut * Z :=
  match tokens with
  | [] => ([], remaining_lovelace)
  | (asset_id, asset_count) :: rest =>
      let token_bundle := [(asset_count, asset_id)] in
      let token_dust := min_dust token_bundle in
      let (outs, rem) := token_outputs address rest (remaining_lovelace - token_dust) in
      (mkTxOut address token_dust token_bundle :: outs, rem)
  end.

(** *** [AbstractWallet.consolidate_utxos] *)
Definition consolidate_utxos (w : Wallet) (password : option string) : M Transaction :=
  bal <- balance w ;;
  let (all_tokens, utxos) := bal in
  let transaction := new_transaction TOKEN_CONSOLIDATION None in
  let transaction := set_inputs transaction (map utxo_ref utxos) in
  let remaining_lovelace := qty lovelace_unit all_tokens in
  let all_tokens := dict_del lovelace_unit all_tokens in
  let (outputs, remaining_lovelace) :=
    token_outputs (payment_address w) all_tokens remaining_lovelace in
  let transaction := set_outputs transaction
    (outputs ++ [mkTxOut (payment_address w) remaining_lovelace []]) in
  transaction <- generate_draft transaction None ;;
  match password with
  | Some pw =>
      if truthy pw then
        tx_fee <- calculate_min_fee transaction ;;
        outputs <- set_last (tx_outputs transaction)
                     (mkTxOut (payment_address w) (remaining_lovelace - tx_fee) []) ;;
        transaction <- submit (set_outputs transaction outputs) w tx_fee pw None None ;;
        ret (save transaction)
      else ret transaction
  | None => ret transaction
  end.

(** The loop of [partition_lovelace] over [self.lovelace_utxos]. *)
Fixpoint sum_lovelace (utxos : list Utxo) (surplus : Z) : M Z :=
  match utxos with
  | [] => ret surplus
  | u :: rest => l <- get_token u lovelace_unit ;; sum_lovelace rest (surplus + l)
  end.

(** *** [AbstractWallet.partition_lovelace] *)
Definition partition_lovelace (w : Wallet) (values : list Z) (password : option string)
  : M Transaction :=
  let transaction := new_transaction LOVELACE_PARTITION None in
  lovelace_utxos <- wallet_lovelace_utxos w ;;
  let transaction := set_inputs transaction (map utxo_ref lovelace_utxos) in
  surplus_lovelace <- sum_lovelace lovelace_utxos 0 ;;
  let surplus_lovelace := fold_left (fun s v => s - v) values surplus_lovelace in
  let transaction := set_outputs transaction
    (map (fun v => mkTxOut (payment_address w) v []) values
       ++ [mkTxOut (payment_address w) surplus_lovelace []]) in
  transaction <- generate_draft transaction None ;;
  match password with
  | Some pw =>
      tx_fee <- calculate_min_fee transaction ;;
      outputs <- set_last (tx_outputs transaction)
                   (mkTxOut (payment_address w) (surplus_lovelace - tx_fee) []) ;;
      transaction <- submit (set_outputs transaction outputs) w tx_fee pw None None ;;
      ret (save transaction)
  | None => ret transaction
  end.

(** The first [{'type': 'before', 'slot': ...}] of [policy.script_data['scripts']]. *)
Fixpoint first_before (scripts : list PolicyScript) : option Z :=
  match scripts with
  | [] => None
  | ScriptBefore s :: _ => Some s
  | _ :: rest => first_before rest
  end.

Definition or_default (o : option string) (d : string) : string :=
  match o with Some s => if truthy s then s else d | None => d end.

(** *** [AbstractWallet.mint_tokens] *)
Definition mint_tokens (w : Wallet) (policy : MintingPolicy) (quantity : Z)
    (to_address : string) (spending_password minting_password : option string)
    (asset_name metadata : option string) (payment_utxo : option Utxo)
    (change_address : option string) : M Transaction :=
  let surplus_address := or_default change_address (payment_address w) in
  payment_utxo <- (match payment_utxo with
                   | Some u => ret u
                   | None =>
                       lovelace_utxos <- wallet_lovelace_utxos w ;;
                       sorted_lovelace_utxos <- lift_key lovelace_unit
                                                  (sort_utxos_default lovelace_utxos) ;;
                       match sorted_lovelace_utxos with
                       | [] => raise (InsufficientFunds "Inadequate funds to complete transaction")
                       | u :: _ => ret u
                       end
                   end) ;;
  let asset_id := match asset_name with
                  | Some n => if truthy n then (policy_id policy ++ "." ++ n)%string
                              else policy_id policy
                  | None => policy_id policy
                  end in
  let token_bundle := [(quantity, asset_id)] in
  let transaction := set_minting (new_transaction TOKEN_MINT metadata) policy minting_password in
  let token_dust := min_dust token_bundle in
  total_lovelace_being_sent <- get_token payment_utxo lovelace_unit ;;
  let lovelace_to_return := total_lovelace_being_sent - token_dust in
  let transaction := set_inputs transaction [utxo_ref payment_utxo] in
  let transaction := set_outputs transaction
    [mkTxOut to_address token_dust token_bundle; mkTxOut surplus_address lovelace_to_return []] in
  transaction <- generate_draft transaction (Some token_bundle) ;;
  match spending_password, minting_password with
  | Some sp, Some _ =>
      tx_fee <- calculate_min_fee transaction ;;
      outputs <- set_last (tx_outputs transaction)
                   (mkTxOut surplus_address (lovelace_to_return - tx_fee) []) ;;
      let invalid_hereafter := first_before (policy_scripts policy) in
      transaction <- submit (set_outputs transaction outputs) w tx_fee sp invalid_hereafter
                       (Some token_bundle) ;;
      ret (save transaction)
  | _, _ => ret transaction
  end.

(** *** [MintingPolicyManager.create]

    The database table of policies and the file storage
    ([CardanoDataStorage]); [file_field.save(..., save=False)] writes to the
    storage only, [policy.save(force_insert=True)] inserts the record. *)
Record Store := mkStore {
  db_policies : list MintingPolicy;
  stored_files : list string
}.

Definition store_file (st : Store) (f : string) : Store :=
  mkStore (db_policies st) (stored_files st ++ [f]).

Definition insert_policy (st : Store) (p : MintingPolicy) : Store :=
  mkStore (db_policies st ++ [p]) (stored_files st).

Definition create_policy (password : string) (invalid_before invalid_hereafter : option Z)
    (st : Store) : Result MintingPolicy * Store :=
  (* 1. address key-gen *)
  if env_fails env AddressKeyGen then (Raise (CliFailure AddressKeyGen), st) else
  (* 2. encrypt the key files and attach them to the record *)
  let files := ["signing.key.aes"; "verification.key.aes"]%string in
  let st := store_file (store_file st "signing.key.aes") "verification.key.aes" in
  if env_fails env AddressKeyHash then (Raise (CliFailure AddressKeyHash), st) else
  let policy_key_hash := env_key_hash env in
  (* 3. the policy script *)
  let scripts :=
    [ScriptSig policy_key_hash]
      ++ match invalid_before with
         | Some s => if Z.eqb s 0 then [] else [ScriptAfter s]
         | None => [] end
      ++ match invalid_hereafter with
         | Some s => if Z.eqb s 0 then [] else [ScriptBefore s]
         | None => [] end in
  let st := store_file st "policy.script.json" in
  (* 4. transaction policyid *)
  if env_fails env TransactionPolicyId then (Raise (CliFailure TransactionPolicyId), st) else
  let policy := mkMintingPolicy (env_policy_id env) scripts
                  (files ++ ["policy.script.json"%string]) in
  (Ok policy, insert_policy st policy).

End Cardano.

(** ** [AbstractWallet.token_utxos] *)
Definition wallet_token_utxos (env : Env) (w : Wallet) : M (list Utxo) :=
  utxos <- wallet_utxos env w ;; ret (filter_utxos utxos None (Some lovelace_unit)).

(** ** [shortcuts.clean_token_asset_name]

    [ALPHANUMERIC_RE = re.compile(r'[^a-zA-Z0-9]')] and
    [ALPHANUMERIC_RE.sub('', asset_name)]: every character outside
    [a-zA-Z0-9] is deleted. *)

Definition is_alphanumeric (c : ascii) : bool :=
  let n := nat_of_ascii c in
  (Nat.leb 48 n && Nat.leb n 57) || (Nat.leb 65 n && Nat.leb n 90)
  || (Nat.leb 97 n && Nat.leb n 122).

Fixpoint clean_token_asset_name (asset_name : string) : string :=
  match asset_name with
  | EmptyString => EmptyString
  | String c s =>
      if is_alphanumeric c then String c (clean_token_asset_name s)
      else clean_token_asset_name s
  end.

(** ** [AbstractWallet.utxos]: parsing the [query utxo] table

    [lines = response.split('\n')]; every line after the first two is
    matched against [UTXO_RE]: the groups [(\w+)] and [(\d+)] of
    [(\w+)\s+(\d+)\s+], then a third group matching [.*]; that
    third group is split on ['+'], every part is split on whitespace and
    gives [utxo_info['Tokens'][token_info[1]] = int(token_info[0])].  [\w],
    [\s] and [\d] are taken over ASCII, as for [MIN_FEE_RE]. *)

(** The exceptions the parser can raise: subscripting the [None] of a
    failed match ([TypeError]), a missing [token_info] item ([IndexError])
    and [int()] of a non-integer ([ValueError]). *)
Inductive PyException := PyTypeError | PyIndexError | PyValueError.

Definition PyResult (A : Type) : Type := (PyException + A)%type.

Definition newline : ascii := ascii_of_nat 10.

Definition is_word (c : ascii) : bool := is_alphanumeric c || Ascii.eqb c "_".

(** [s.split(sep)] for a one-character separator: empty parts are kept. *)
Fixpoint split_sep (sep : ascii) (s : string) : list string :=
  match s with
  | EmptyString => [EmptyString]
  | String c s' =>
      if Ascii.eqb c sep then EmptyString :: split_sep sep s'
      else match split_sep sep s' with
           | w :: ws => String c w :: ws
           | [] => [String c EmptyString]
           end
  end.

(** [s.split()]: the maximal runs of non-whitespace characters.  The
    auxiliary function returns the run the string starts with and the words
    after it. *)
Fixpoint split_ws_aux (s : string) : string * list string :=
  match s with
  | EmptyString => (EmptyString, [])
  | String c s' =>
      let (w, ws) := split_ws_aux s' in
      if is_space c then (EmptyString, if String.eqb w EmptyString then ws else w :: ws)
      else (String c w, ws)
  end.

Definition split_ws (s : string) : list string :=
  let (w, ws) := split_ws_aux s in
  if String.eqb w EmptyString then ws else w :: ws.

(** The groups of [UTXO_RE.match(line)]: [\w+], [\s+], [\d+] and [\s+] each
    take their maximal run (a shorter run is followed by a character of its
    own class, which the next item rejects), and [.*] the rest up to the
    first newline. *)
Definition utxo_re_match (line : string) : option (string * string * string) :=
  let (tx_hash, r1) := span is_word line in
  let (sp1, r2) := span is_space r1 in
  let (tx_ix, r3) := span is_digit r2 in
  let (sp2, r4) := span is_space r3 in
  if truthy tx_hash && truthy sp1 && truthy tx_ix && truthy sp2
  then Some (tx_hash, tx_ix, fst (span (fun c => negb (Ascii.eqb c newline)) r4))
  else None.

(** [int(s)] of a string without whitespace: an optional sign, then decimal
    digits with single underscores allowed between two digits. *)
Fixpoint digits_tail_ok (s : string) : bool :=
  match s with
  | EmptyString => true
  | String c s' =>
      if Ascii.eqb c "_" then
        match s' with
        | String d s'' => is_digit d && digits_tail_ok s''
        | EmptyString => false
        end
      else is_digit c && digits_tail_ok s'
  end.

Definition py_digits_ok (s : string) : bool :=
  match s with
  | String c s' => is_digit c && digits_tail_ok s'
  | EmptyString => false
  end.

Fixpoint remove_underscores (s : string) : string :=
  match s with
  | EmptyString => EmptyString
  | String c s' =>
      if Ascii.eqb c "_" then remove_underscores s' else String c (remove_underscores s')
  end.

Definition py_int (s : string) : option Z :=
  let (negative, body) :=
    match s with
    | String c s' =>
        if Ascii.eqb c "-" then (true, s')
        else if Ascii.eqb c "+" then (false, s')
        else (false, s)
    | EmptyString => (false, s)
    end in
  if py_digits_ok body then
    let v := digits_value (remove_underscores body) in
    Some (if negative then - v else v)
  else None.

(** [d[k] = v] on a plain dict: an existing key keeps its place and takes
    the new value, a new key is appended. *)
Fixpoint dict_set (k : string) (v : Z) (d : TokenDict) : TokenDict :=
  match d with
  | [] => [(k, v)]
  | (k', v') :: d' => if String.eqb k k' then (k', v) :: d' else (k', v') :: dict_set k v d'
  end.

(** The loop [for token in tokens] of [AbstractWallet.utxos]. *)
Fixpoint parse_tokens (tokens : list string) (d : TokenDict) : PyResult TokenDict :=
  match tokens with
  | [] => inr d
  | token :: rest =>
      match split_ws token with
      | [] => inl PyIndexError
      | w0 :: ws =>
          match py_int w0 with
          | None => inl PyValueError
          | Some asset_count =>
              match ws with
              | [] => inl PyIndexError
              | asset_type :: _ => parse_tokens rest (dict_set asset_type asset_count d)
              end
          end
      end
  end.

(** One line of the table. *)
Definition parse_utxo_line (line : string) : PyResult Utxo :=
  match utxo_re_match line with
  | None => inl PyTypeError
  | Some (tx_hash, tx_ix, amounts) =>
      match parse_tokens (split_sep "+" amounts) [] with
      | inl e => inl e
      | inr tokens => inr (mkUtxo tx_hash tx_ix tokens)
      end
  end.

Fixpoint parse_utxo_lines (lines : list string) : PyResult (list Utxo) :=
  match lines with
  | [] => inr []
  | line :: rest =>
      match parse_utxo_line line with
      | inl e => inl e
      | inr u =>
          match parse_utxo_lines rest with
          | inl e => inl e
          | inr us => inr (u :: us)
          end
      end
  end.

(** [AbstractWallet.utxos] on the text [CardanoCLI.run('query utxo', ...)]
    returned. *)
Definition utxos_of_response (response : string) : PyResult (list Utxo) :=
  parse_utxo_lines (skipn 2 (split_sep newline response)).

(** ** [CardanoUtils.consolidate_tokens] ([util.py]) *)

Section Utils.

Variable env : Env.

(** [CardanoUtils.calculate_min_fee] on its keyword arguments: the parameters are not
    refreshed here, and the counts are the caller's. *)
Definition utils_calculate_min_fee (tx_in_count tx_out_count witness_count : nat) : M Z :=
  cli_run env (CalculateMinFee tx_in_count tx_out_count witness_count) ;;;
  match parse_min_fee (env_min_fee_response env) with
  | Some fee => ret fee
  | None => raise TypeError
  end.

(** [CardanoUtils._submit_transaction(tx_file_directory, wallet, *tx_args, fee=tx_fee)],
    with [mint=mint_argument] when [mint] is given: [signing_key_dumps] tells whether
    [json.dump(wallet.payment_signing_key, signing_key_file)] succeeds; it
    raises [TypeError] otherwise. The policy signing key is added when
    ['mint' in tx_kwargs]. *)
Definition utils_submit_transaction (signing_key_dumps : bool) (tx_args : list TxArg)
    (fee : Z) (mint : option Bundle) : M unit :=
  current_slot <- query_tip_slot env ;;
  let invalid_hereafter := current_slot + DEFAULT_TRANSACTION_TTL in
  cli_run env (BuildRaw (mkBuildArgs tx_args fee (Some invalid_hereafter) mint None false)) ;;;
  (if signing_key_dumps then ret tt else raise TypeError) ;;;
  cli_run env (Sign (if mint then true else false)) ;;;
  cli_run env Submit.

(** The loop of [consolidate_tokens] over [all_tokens.items()]: one output
    per asset carrying [token_lovelace], deducted from the remaining
    lovelace. *)
Fixpoint utils_token_outputs (address : string) (token_lovelace : Z) (tokens : TokenDict)
    (remaining_lovelace : Z) : list TxOut * Z :=
  match tokens with
  | [] => ([], remaining_lovelace)
  | (asset_id, asset_count) :: rest =>
      let (outs, rem) :=
        utils_token_outputs address token_lovelace rest (remaining_lovelace - token_lovelace) in
      (mkTxOut address token_lovelace [(asset_count, asset_id)] :: outs, rem)
  end.

(** [CardanoUtils.consolidate_tokens(wallet)]; [create_intermediate_directory]
    only names the directory of the intermediate files. *)
Definition utils_consolidate_tokens (w : Wallet) (signing_key_dumps : bool) : M unit :=
  protocol_parameters <- refresh_protocol_parameters env ;;
  let min_utxo_value := minUTxOValue protocol_parameters in
  let token_lovelace := min_utxo_value * 2 in
  let address := payment_address w in
  bal <- balance env w ;;
  let (all_tokens, utxos) := bal in
  let tx_in_list := map (fun u => ArgTxIn (TxHash u) (TxIx u)) utxos in
  let remaining_lovelace := qty lovelace_unit all_tokens in
  let all_tokens := dict_del lovelace_unit all_tokens in
  let (tx_out_list, remaining_lovelace) :=
    utils_token_outputs address token_lovelace all_tokens remaining_lovelace in
  let tx_out_list := tx_out_list ++ [mkTxOut address remaining_lovelace []] in
  let tx_args := tx_in_list ++ map ArgTxOut tx_out_list in
  cli_run env (BuildRaw (mkBuildArgs tx_args 0 (Some 0) None None false)) ;;;
  tx_fee <- utils_calculate_min_fee (List.length tx_in_list) (List.length tx_out_list) 1 ;;
  if remaining_lovelace - tx_fee <? min_utxo_value
  then raise (InsufficientFunds "Insufficient lovelace available to perform consolidation.")
  else
    tx_args <- set_last tx_args (ArgTxOut (mkTxOut address (remaining_lovelace - tx_fee) [])) ;;
    utils_submit_transaction signing_key_dumps tx_args tx_fee None.

(** A call [filter_utxos(utxos, **kwargs)]: Python binds the keywords to the
    parameters [include] and [exclude] and raises [TypeError] on any other
    keyword, before the body runs. *)
Definition kwarg (k : string) (kwargs : list (string * string)) : option string :=
  option_map snd (find (fun kv => String.eqb (fst kv) k) kwargs).

Definition filter_utxos_call (utxos : list Utxo) (kwargs : list (string * string))
    : M (list Utxo) :=
  if forallb (fun kv => String.eqb (fst kv) "include" || String.eqb (fst kv) "exclude") kwargs
  then ret (filter_utxos utxos (kwarg "include" kwargs) (kwarg "exclude" kwargs))
  else raise TypeError.

(** [CardanoUtils.mint_nft(asset_name, metadata, from_wallet)]; writing
    [policy.script] cannot fail here. *)
Definition utils_mint_nft (asset_name metadata : string) (from_wallet : Wallet)
    (signing_key_dumps : bool) : M unit :=
  protocol_parameters <- refresh_protocol_parameters env ;;
  let min_utxo_value := minUTxOValue protocol_parameters in
  let payment_address := payment_address from_wallet in
  let token_lovelace := min_utxo_value * 3 in
  utxos <- wallet_utxos env from_wallet ;;
  filtered <- filter_utxos_call utxos [("type"%string, lovelace_unit)] ;;
  lovelace_utxos <- lift_key lovelace_unit (sort_utxos_default filtered) ;;
  match lovelace_utxos with
  | [] => raise (InsufficientFunds ("Address " ++ payment_address
                   ++ " has inadequate funds to complete transaction"))
  | lovelace_utxo :: _ =>
      cli_run env AddressKeyGen ;;;
      cli_run env AddressKeyHash ;;;
      cli_run env TransactionPolicyId ;;;
      let policy_id := env_policy_id env in
      let mint_argument := [(1, (policy_id ++ "." ++ asset_name)%string)] in
      total_lovelace_being_sent <- get_token lovelace_utxo lovelace_unit ;;
      let lovelace_to_return := total_lovelace_being_sent - token_lovelace in
      let tx_args := [ArgTxIn (TxHash lovelace_utxo) (TxIx lovelace_utxo);
                      ArgTxOut (mkTxOut payment_address token_lovelace mint_argument);
                      ArgTxOut (mkTxOut payment_address lovelace_to_return [])] in
      cli_run env (BuildRaw (mkBuildArgs tx_args 0 None (Some mint_argument) None false)) ;;;
      tx_fee <- utils_calculate_min_fee 1 2 2 ;;
      tx_args <- set_last tx_args
                   (ArgTxOut (mkTxOut payment_address (lovelace_to_return - tx_fee) [])) ;;
      utils_submit_transaction signing_key_dumps tx_args tx_fee (Some mint_argument)
  end.

End Utils.

(** ** Example snapshots and node behaviours *)

Definition ex_u1 : Utxo := mkUtxo "h1" "0" [(lovelace_unit, 10000000)].
Definition ex_u2 : Utxo :=
  mkUtxo "h2" "1" [(lovelace_unit, 2000000); ("pA.A"%string, 5); ("pB.B"%string, 7)].
Definition ex_small : Utxo := mkUtxo "h3" "0" [(lovelace_unit, 1000000)].
Definition ex_token_only : Utxo :=
  mkUtxo "h4" "0" [(lovelace_unit, 2000000); ("pA.A"%string, 5)].

Definition ex_wallet : Wallet := mkWallet "addr_self".
Definition ex_params : ProtocolParameters := mkProtocolParameters 1000000 155381 44.

(** A node that answers every command. *)
Definition cli_ok (c : Cmd) : bool := false.

(** A node that rejects a [build-raw] without any [--tx-in]. *)
Definition cli_needs_tx_in (c : Cmd) : bool :=
  match c with
  | BuildRaw b =>
      negb (existsb (fun a => match a with ArgTxIn _ _ => true | _ => false end) (ba_args b))
  | _ => false
  end.

Definition ex_env (utxos : list Utxo) (fee_response : string) (fails : Cmd -> bool) : Env :=
  mkEnv utxos ex_params 500 fee_response "txid" "keyhash" "policyid" fails
    (fun _ => true) (fun _ => true).

(** A transaction whose draft body has been written. *)
Definition ex_drafted_tx : Transaction :=
  set_draft (new_transaction LOVELACE_TRANSFER None) (mkBuildArgs [] 0 None None None false).

(** A minting policy as [create_policy] stores it for [invalid_hereafter = 900]. *)
Definition ex_policy : MintingPolicy :=
  mkMintingPolicy "policyid" [ScriptSig "keyhash"; ScriptBefore 900]
    ["signing.key.aes"; "verification.key.aes"; "policy.script.json"]%string.

(** Rows of a [query utxo] listing: hash, index and the amounts of each UTxO. *)
Definition ex_rows : list (string * string * list (string * string)) :=
  [("abc", "0", [("1000000", "lovelace")]);
   ("def", "1", [("2000000", "lovelace"); ("5", "pA.A")])]%string.

(** The header and rule lines that open a [query utxo] listing. *)
Definition ex_header : string := "TxHash TxIx Amount".
Definition ex_rule : string := "------------------".

(** ** Vocabulary of the properties *)

Definition sum_Z (l : list Z) : Z := fold_right Z.add 0 l.

(** The quantity of asset [type] in a UTxO, [0] when it holds none. *)
Definition key (type : string) (u : Utxo) : Z := qty type (Tokens u).

(** Running totals of a sequence of quantities, from [acc]. *)
Fixpoint running_from (acc : Z) (l : list Z) : list Z :=
  match l with
  | [] => []
  | x :: xs => (acc + x) :: running_from (acc + x) xs
  end.

(** The [transaction build-raw] invocations of a trace. *)
Fixpoint build_raws (tr : list Cmd) : list BuildArgs :=
  match tr with
  | [] => []
  | BuildRaw b :: tr' => b :: build_raws tr'
  | _ :: tr' => build_raws tr'
  end.

Definition input_args (ins : list (string * string)) : list TxArg :=
  map (fun r => ArgTxIn (fst r) (snd r)) ins.

(** The trace builds exactly two bodies: the draft, at fee [0] and without
    [invalid-hereafter], and the final one; both have the inputs of [tx],
    and their outputs agree with those of [tx] except the last one of the
    draft. *)
Definition draft_then_final (tr : list Cmd) (tx : Transaction) : Prop :=
  exists outs_init last_draft last_final fee ttl mint md ms,
    tx_outputs tx = outs_init ++ [last_final] /\
    build_raws tr =
      [mkBuildArgs (input_args (tx_inputs tx) ++ map ArgTxOut (outs_init ++ [last_draft]))
         0 None mint md ms;
       mkBuildArgs (input_args (tx_inputs tx) ++ map ArgTxOut (outs_init ++ [last_final]))
         fee (Some ttl) mint md ms].

(** The total quantity of an asset carried by a list of outputs. *)
Definition outputs_qty (a : string) (outs : list TxOut) : Z :=
  sum_Z (map (fun o => sum_Z (map (fun qa => if String.eqb (snd qa) a then fst qa else 0)
                                   (out_bundle o))) outs).

(** Every character of [s] satisfies [p]. *)
Fixpoint all_chars (p : ascii -> bool) (s : string) : bool :=
  match s with
  | EmptyString => true
  | String c s' => p c && all_chars p s'
  end.

(** [s] has the shape [<digits><whitespace>Lovelace<rest>] with a
    non-empty run of digits [ds] and a non-empty run of whitespace [ws]. *)
Definition fee_response_form (s ds ws r : string) : Prop :=
  ds <> EmptyString /\ all_chars is_digit ds = true /\
  ws <> EmptyString /\ all_chars is_space ws = true /\
  s = (ds ++ ws ++ "Lovelace" ++ r)%string.

(** The first character of [s], if any, fails [p]. *)
Definition head_fails (p : ascii -> bool) (s : string) : Prop :=
  match s with EmptyString => True | String c _ => p c = false end.

(** A computation that issues no [transaction build-raw]. *)
Definition quiet {A} (m : M A) : Prop := build_raws (snd m) = [].

(** The fee of the last [build-raw] body of a trace. *)
Definition final_fee (tr : list Cmd) : option Z :=
  match rev (build_raws tr) with b :: _ => Some (ba_fee b) | [] => None end.

(** The transaction spends UTxOs [sel] taken from [utxos], and its outputs
    carry exactly their lovelace less the fee of the final body. *)
Definition lovelace_conserved (utxos : list Utxo) (tr : list Cmd) (tx : Transaction) : Prop :=
  exists sel fee,
    incl sel utxos /\ tx_inputs tx = map utxo_ref sel /\ final_fee tr = Some fee /\
    sum_Z (map out_lovelace (tx_outputs tx)) + fee = sum_Z (map (key lovelace_unit) sel).

(** A row of the [query utxo] table: transaction hash, index and the
    [<amount> <asset>] parts joined by [" + "]. *)
Definition render_amount (na : string * string) : string := (fst na ++ " " ++ snd na)%string.

Definition render_row (row : string * string * list (string * string)) : string :=
  let '(h, ix, amounts) := row in
  (h ++ "     " ++ ix ++ "        " ++ String.concat " + " (map render_amount amounts))%string.

(** The whole response: a header line, a rule line, then the rows. *)
Definition render_table (header rule : string) (rows : list string) : string :=
  String.concat (String newline EmptyString) (header :: rule :: rows).

(** The UTxO a well-formed row stands for. *)
Definition row_utxo (row : string * string * list (string * string)) : Utxo :=
  let '(h, ix, amounts) := row in
  mkUtxo h ix (map (fun na => (snd na, digits_value (fst na))) amounts).

(** A row the node can print: a word-character hash, a decimal index, and
    at least one amount, each a decimal numeral followed by an asset id
    free of whitespace and ['+'], the asset ids pairwise distinct. *)
Definition well_formed_row (row : string * string * list (string * string)) : Prop :=
  let '(h, ix, amounts) := row in
  h <> EmptyString /\ all_chars is_word h = true /\
  ix <> EmptyString /\ all_chars is_digit ix = true /\
  amounts <> [] /\ NoDup (map snd amounts) /\
  Forall (fun na => fst na <> EmptyString /\ all_chars is_digit (fst na) = true /\
                    snd na <> EmptyString /\
                    all_chars (fun c => negb (is_space c) && negb (Ascii.eqb c "+")) (snd na)
                      = true) amounts.

(** The ['+']-separated parts of [" + "]-joined pieces: each part is its
    piece with blanks around it. *)
Definition blank_padded (seg x : string) : Prop :=
  exists l t, all_chars is_space l = true /\ all_chars is_space t = true /\
              seg = (l ++ x ++ t)%string.

(** A well-formed amount. *)
Definition amount_ok (na : string * string) : Prop :=
  fst na <> EmptyString /\ all_chars is_digit (fst na) = true /\
  snd na <> EmptyString /\
  all_chars (fun c => negb (is_space c) && negb (Ascii.eqb c "+")) (snd na) = true.

(** ** Wallet balance *)

Lemma lookup_dict_add k k' v d :
  lookup k (dict_add k' v d) =
  if String.eqb k k' then Some (qty k d + v) else lookup k d.
Proof.
  unfold qty. induction d as [|[k0 v0] d IH]; simpl.
  - destruct (String.eqb k k'); reflexivity.
  - destruct (String.eqb k' k0) eqn:E1.
    + apply String.eqb_eq in E1; subst k0. simpl.
      destruct (String.eqb k k'); reflexivity.
    + simpl. destruct (String.eqb k k0) eqn:E2.
      * apply String.eqb_eq in E2; subst k0.
        destruct (String.eqb k k') eqn:E3; [|reflexivity].
        apply String.eqb_eq in E3; subst k'. rewrite String.eqb_refl in E1. discriminate.
      * rewrite IH. reflexivity.
Qed.

Lemma in_asset_types_spec a l : in_asset_types a l = true <-> In a l.
Proof.
  unfold in_asset_types. rewrite existsb_exists. split.
  - intros (x & Hx & E). apply String.eqb_eq in E. subst. exact Hx.
  - intros H. exists a. split; [exact H | apply String.eqb_refl].
Qed.

Lemma in_asset_types_cons k k' l :
  in_asset_types k (k' :: l) = String.eqb k k' || in_asset_types k l.
Proof. reflexivity. Qed.

Lemma qty_cons k k' v t : qty k ((k', v) :: t) = if String.eqb k k' then v else qty k t.
Proof. unfold qty. simpl. destruct (String.eqb k k'); reflexivity. Qed.

Lemma qty_dict_add k k' v d :
  qty k (dict_add k' v d) = if String.eqb k k' then qty k d + v else qty k d.
Proof.
  unfold qty at 1. rewrite lookup_dict_add. destruct (String.eqb k k'); reflexivity.
Qed.

Lemma lookup_none_not_in k t : lookup k t = None -> in_asset_types k (map fst t) = false.
Proof.
  induction t as [|[k' v] t IH]; cbn [lookup map fst]; [reflexivity|].
  rewrite in_asset_types_cons. destruct (String.eqb k k'); [discriminate|exact IH].
Qed.

Lemma not_in_qty k t : in_asset_types k (map fst t) = false -> qty k t = 0.
Proof.
  induction t as [|[k' v] t IH]; cbn [map fst]; [reflexivity|].
  rewrite in_asset_types_cons, qty_cons. destruct (String.eqb k k'); [discriminate|exact IH].
Qed.

Lemma lookup_add_utxo_tokens k toks acc :
  NoDup (map fst toks) ->
  lookup k (add_utxo_tokens acc toks) =
  if in_asset_types k (map fst toks) then Some (qty k acc + qty k toks) else lookup k acc.
Proof.
  unfold add_utxo_tokens.
  revert acc. induction toks as [|[k' v] toks IH]; intros acc Hnd; cbn [fold_left map fst snd].
  - reflexivity.
  - inversion Hnd as [|? ? Hnin Hnd']; subst.
    rewrite IH by exact Hnd'. rewrite in_asset_types_cons, qty_cons.
    destruct (String.eqb k k') eqn:E.
    + apply String.eqb_eq in E. subst k'.
      destruct (in_asset_types k (map fst toks)) eqn:Ein.
      * apply in_asset_types_spec in Ein. contradiction.
      * rewrite lookup_dict_add, String.eqb_refl. reflexivity.
    + simpl. rewrite qty_dict_add, E, lookup_dict_add, E. reflexivity.
Qed.

Lemma lookup_balance_from k us acc :
  Forall (fun u => NoDup (map fst (Tokens u))) us ->
  lookup k (fold_left (fun acc u => add_utxo_tokens acc (Tokens u)) us acc) =
  if existsb (holds k) us
  then Some (qty k acc + sum_Z (map (key k) us)) else lookup k acc.
Proof.
  revert acc. induction us as [|u us IH]; intros acc Hnd; cbn [fold_left existsb map sum_Z fold_right].
  - reflexivity.
  - inversion Hnd as [|? ? Hu Hus]; subst.
    rewrite IH by exact Hus.
    change (holds k u) with (in_asset_types k (map fst (Tokens u))).
    change (key k u) with (qty k (Tokens u)).
    rewrite lookup_add_utxo_tokens by exact Hu.
    assert (Hq : qty k (add_utxo_tokens acc (Tokens u)) =
                 qty k acc + qty k (Tokens u)).
    { unfold qty at 1. rewrite lookup_add_utxo_tokens by exact Hu.
      destruct (in_asset_types k (map fst (Tokens u))) eqn:Ek; [reflexivity|].
      rewrite (not_in_qty _ _ Ek). fold (qty k acc). lia. }
    destruct (existsb (holds k) us) eqn:Eus.
    + rewrite orb_true_r. rewrite Hq. f_equal. fold (sum_Z (map (key k) us)).
      destruct (in_asset_types k (map fst (Tokens u))); lia.
    + rewrite orb_false_r.
      destruct (in_asset_types k (map fst (Tokens u))) eqn:Ek; [|reflexivity].
      f_equal. assert (Hz : sum_Z (map (key k) us) = 0).
      { clear -Eus. induction us as [|u' us IH]; simpl in *; [reflexivity|].
        apply orb_false_iff in Eus as [E1 E2]. fold (sum_Z (map (key k) us)).
        rewrite IH by exact E2. unfold key. rewrite (not_in_qty _ _ E1). reflexivity. }
      fold (sum_Z (map (key k) us)). rewrite Hz. lia.
Qed.

(** ** Sorting and greedy selection *)

Lemma decorate_spec type us d :
  decorate type us = Some d ->
  map snd d = us /\ Forall (fun p => lookup type (Tokens (snd p)) = Some (fst p)) d.
Proof.
  revert d. induction us as [|u us IH]; intros d H; simpl in H.
  - injection H as <-. split; [reflexivity | constructor].
  - destruct (lookup type (Tokens u)) as [k|] eqn:Ek; [|discriminate].
    destruct (decorate type us) as [d'|]; [|discriminate].
    injection H as <-. destruct (IH d' eq_refl) as [H1 H2].
    split; [simpl; rewrite H1; reflexivity | constructor; assumption].
Qed.

Lemma insert_by_perm o x l : Permutation (insert_by o x l) (x :: l).
Proof.
  induction l as [|y ys IH]; simpl; [reflexivity|].
  destruct (before o (fst y) (fst x)); [|reflexivity].
  rewrite IH. apply perm_swap.
Qed.

Lemma sort_by_perm o l : Permutation (sort_by o l) l.
Proof.
  induction l as [|x xs IH]; simpl; [reflexivity|].
  rewrite insert_by_perm. constructor. exact IH.
Qed.

Lemma before_asym o a b : before o a b = true -> before o b a = false.
Proof.
  unfold before. destruct (String.eqb o "desc");
  rewrite Z.ltb_lt; intros H; apply Z.ltb_ge; lia.
Qed.

Lemma insert_by_hdrel o a x l :
  HdRel (fun p q => before o q p = false) a (map fst l) ->
  before o (fst x) a = false ->
  HdRel (fun p q => before o q p = false) a (map fst (insert_by o x l)).
Proof.
  destruct l as [|y ys]; simpl; intros Hhd Hx.
  - constructor. exact Hx.
  - destruct (before o (fst y) (fst x)); simpl; constructor;
      [inversion Hhd; assumption | exact Hx].
Qed.

Lemma insert_by_sorted o x l :
  Sorted (fun p q => before o q p = false) (map fst l) ->
  Sorted (fun p q => before o q p = false) (map fst (insert_by o x l)).
Proof.
  induction l as [|y ys IH]; simpl; intros Hs.
  - repeat constructor.
  - apply Sorted_inv in Hs as [Hs Hhd].
    destruct (before o (fst y) (fst x)) eqn:E; simpl.
    + constructor; [exact (IH Hs)|].
      apply insert_by_hdrel; [exact Hhd | apply before_asym; exact E].
    + constructor; [constructor; assumption | constructor; exact E].
Qed.

Lemma sort_by_sorted o l : Sorted (fun p q => before o q p = false) (map fst (sort_by o l)).
Proof.
  induction l as [|x xs IH]; simpl; [constructor|].
  apply insert_by_sorted. exact IH.
Qed.

Lemma map_fst_key type l :
  Forall (fun p => lookup type (Tokens (snd p)) = Some (fst p)) l ->
  map fst l = map (key type) (map snd l).
Proof.
  induction 1 as [|p l Hp _ IH]; simpl; [reflexivity|].
  rewrite IH. unfold key, qty. rewrite Hp. reflexivity.
Qed.

Lemma Sorted_weaken {A} (R R' : A -> A -> Prop) l :
  (forall a b, R a b -> R' a b) -> Sorted R l -> Sorted R' l.
Proof.
  intros Himp Hs. induction Hs as [|a l Hs IH Hhd]; constructor; [exact IH|].
  destruct Hhd; constructor. apply Himp. assumption.
Qed.

(** [sort_utxos] returns a permutation of its input ordered by the key:
    non-increasing for [order = 'desc'], non-decreasing otherwise. *)
Lemma sort_utxos_spec us type order sorted :
  sort_utxos us type order = Some sorted ->
  Permutation sorted us /\
  Sorted (fun a b => if String.eqb order "desc" then b <= a else a <= b)
    (map (key type) sorted).
Proof.
  unfold sort_utxos. destruct (decorate type us) as [d|] eqn:Ed; [|discriminate].
  intros H. injection H as <-.
  destruct (decorate_spec _ _ _ Ed) as [Hsnd Hkeys]. split.
  - rewrite <- Hsnd. apply Permutation_map. apply sort_by_perm.
  - rewrite <- map_fst_key.
    + apply (Sorted_weaken (fun p q => before order q p = false)); [|apply sort_by_sorted].
      intros a b H. unfold before in H. destruct (String.eqb order "desc");
        apply Z.ltb_ge in H; lia.
    + eapply Permutation_Forall; [symmetry; apply sort_by_perm | exact Hkeys].
Qed.

Lemma accumulate_spec type target t0 l sel total :
  accumulate type target t0 l = Some (sel, total) ->
  exists rest,
    l = sel ++ rest /\
    total = t0 + sum_Z (map (key type) sel) /\
    (rest <> [] -> target <= total) /\
    (l <> [] -> sel <> []) /\
    (forall n, (0 < n < List.length sel)%nat ->
               t0 + sum_Z (map (key type) (firstn n sel)) < target).
Proof.
  revert t0 sel total. induction l as [|u l IH]; intros t0 sel total H; simpl in H.
  - injection H as <- <-. exists []. simpl.
    repeat split; intros; simpl in *; try lia; congruence.
  - destruct (lookup type (Tokens u)) as [q|] eqn:Eq; [|discriminate].
    assert (Hk : key type u = q) by (unfold key, qty; rewrite Eq; reflexivity).
    destruct (target <=? t0 + q) eqn:Et.
    + injection H as <- <-. exists l. simpl. rewrite Hk.
      apply Z.leb_le in Et. unfold sum_Z. simpl.
      repeat split; intros; simpl in *; try lia; congruence.
    + destruct (accumulate type target (t0 + q) l) as [[sel' t']|] eqn:Ea; [|discriminate].
      injection H as <- <-.
      destruct (IH _ _ _ Ea) as (rest & Hl & Ht & Hr & Hne & Hpre).
      apply Z.leb_gt in Et.
      exists rest. simpl. rewrite Hk. repeat split.
      * rewrite Hl. reflexivity.
      * unfold sum_Z in *. simpl. lia.
      * exact Hr.
      * congruence.
      * intros n Hn. destruct n as [|n]; [lia|].
        destruct n as [|n].
        -- simpl. unfold sum_Z. simpl. rewrite Hk. lia.
        -- change (firstn (S (S n)) (u :: sel')) with (u :: firstn (S n) sel').
           cbn [map]. unfold sum_Z at 1. cbn [fold_right]. rewrite Hk.
           simpl in Hn. specialize (Hpre (S n) ltac:(lia)). unfold sum_Z in Hpre. lia.
Qed.

Lemma filter_utxos_include us type :
  filter_utxos us (Some type) None =
  filter (fun u => if String.eqb type lovelace_unit
                   then Nat.eqb (List.length (map fst (Tokens u))) 1
                   else in_asset_types type (map fst (Tokens u))) us.
Proof.
  induction us as [|u us IH]; simpl; [reflexivity|].
  rewrite IH. destruct (String.eqb type lovelace_unit);
  [destruct (Nat.eqb _ 1) | destruct (in_asset_types _ _)]; reflexivity.
Qed.

Lemma NoDup_map_filter {A B} (f : A -> B) p l :
  NoDup (map f l) -> NoDup (map f (filter p l)).
Proof.
  induction l as [|x l IH]; simpl; intros H; [constructor|].
  inversion H as [|? ? Hnin Hnd]; subst.
  destruct (p x); simpl; [|exact (IH Hnd)].
  constructor; [|exact (IH Hnd)].
  intros Hin. apply Hnin. apply in_map_iff in Hin as (y & Hy & Hiny).
  apply filter_In in Hiny as [Hiny _]. rewrite <- Hy. apply in_map. exact Hiny.
Qed.

Lemma running_from_sorted acc l :
  Forall (fun x => 0 <= x) l -> Sorted Z.le (acc :: running_from acc l).
Proof.
  revert acc. induction l as [|x l IH]; intros acc H; simpl.
  - repeat constructor.
  - inversion H as [|? ? Hx Hl]; subst.
    constructor; [exact (IH (acc + x) Hl)|]. constructor. lia.
Qed.

Lemma Sorted_app_l {A} (R : A -> A -> Prop) l1 l2 : Sorted R (l1 ++ l2) -> Sorted R l1.
Proof.
  induction l1 as [|a l1 IH]; simpl; intros H; [constructor|].
  apply Sorted_inv in H as [Hs Hhd]. constructor; [exact (IH Hs)|].
  destruct l1; simpl in *; constructor. inversion Hhd; assumption.
Qed.




(** C9: for a snapshot without duplicate [(TxHash, TxIx)] pairs the selector
    returns none either; with ascending order (any order but ['desc']) the
    selected quantities are non-decreasing and so is their running total,
    the quantities of a ledger snapshot being non-negative. *)
Theorem select_utxos_nodup_running utxos type target order sel total :
  NoDup (map utxo_ref utxos) ->
  select_utxos utxos type target order = Some (sel, total) ->
  NoDup (map utxo_ref sel) /\
  (String.eqb order "desc" = false ->
   Forall (fun u => 0 <= key type u) utxos ->
   Sorted Z.le (map (key type) sel) /\
   Sorted Z.le (0 :: running_from 0 (map (key type) sel))).
Proof.
  intros Hnd Hsel. unfold select_utxos in Hsel.
  destruct (sort_utxos (filter_utxos utxos (Some type) None) type order) as [sorted|] eqn:Es;
    [|discriminate].
  destruct (sort_utxos_spec _ _ _ _ Es) as [Hp Hs].
  destruct (accumulate_spec _ _ _ _ _ _ Hsel) as (rest & Hl & _ & _ & _ & _).
  rewrite filter_utxos_include in Hp.
  assert (Hnds : NoDup (map utxo_ref sorted)).
  { eapply Permutation_NoDup; [apply Permutation_map; symmetry; exact Hp|].
    apply NoDup_map_filter. exact Hnd. }
  split.
  - rewrite Hl, map_app in Hnds. exact (NoDup_app_remove_r _ _ Hnds).
  - intros Hasc Hpos. rewrite Hasc in Hs. split.
    + rewrite Hl, map_app in Hs. exact (Sorted_app_l _ _ _ Hs).
    + apply running_from_sorted. apply Forall_map.
      assert (Hf : Forall (fun u => 0 <= key type u) sorted).
      { eapply Permutation_Forall; [symmetry; exact Hp|].
        apply Forall_forall. intros u Hu. apply filter_In in Hu as [Hu _].
        rewrite Forall_forall in Hpos. exact (Hpos u Hu). }
      rewrite Hl in Hf. apply Forall_app in Hf as [Hf _]. exact Hf.
Qed.

Lemma select_utxos_nodup_running_witness :
  NoDup (map utxo_ref [ex_u1; ex_small]) /\
  select_utxos [ex_u1; ex_small] lovelace_unit 1500000 "asc"
    = Some ([ex_small; ex_u1], 11000000) /\
  NoDup (map utxo_ref [ex_small; ex_u1]) /\
  (String.eqb "asc" "desc" = false ->
   Forall (fun u => 0 <= key lovelace_unit u) [ex_u1; ex_small] ->
   Sorted Z.le (map (key lovelace_unit) [ex_small; ex_u1]) /\
   Sorted Z.le (0 :: running_from 0 (map (key lovelace_unit) [ex_small; ex_u1]))).
Proof.
  assert (H1 : NoDup (map utxo_ref [ex_u1; ex_small])).
  { simpl. constructor; [simpl; intros [H|[]]; discriminate H | repeat constructor; simpl; tauto]. }
  assert (H2 : select_utxos [ex_u1; ex_small] lovelace_unit 1500000 "asc"
               = Some ([ex_small; ex_u1], 11000000)) by reflexivity.
  split; [exact H1|split; [exact H2|exact (select_utxos_nodup_running _ _ _ _ _ _ H1 H2)]].
Defined.

Lemma sum_key_absent k us : existsb (holds k) us = false -> sum_Z (map (key k) us) = 0.
Proof.
  induction us as [|u us IH]; cbn [existsb map sum_Z fold_right]; [reflexivity|].
  intros H. apply orb_false_iff in H as [Hu Hus].
  change (key k u) with (qty k (Tokens u)). rewrite (not_in_qty k (Tokens u) Hu).
  change (fold_right Z.add 0 (map (key k) us)) with (sum_Z (map (key k) us)).
  rewrite IH by exact Hus. reflexivity.
Qed.

(** C10: [AbstractWallet.balance] reports, for every asset id, the sum of
    that asset's quantities over all UTxOs of the queried snapshot; an asset
    held by no UTxO is absent from the dict (its quantity reads as [0]).
    The only assumption is that a UTxO lists each of its assets once, as the
    node's [query utxo] output does. *)
Theorem balance_sums_utxos env w d us :
  Forall (fun u => NoDup (map fst (Tokens u))) (env_utxos env) ->
  fst (balance env w) = Ok (d, us) ->
  us = env_utxos env /\
  forall k,
    lookup k d = (if existsb (holds k) us then Some (sum_Z (map (key k) us)) else None) /\
    qty k d = sum_Z (map (key k) us).
Proof.
  intros Hnd. unfold balance, wallet_utxos, cli_run, bind, ret; simpl.
  destruct (env_fails env (QueryUtxo (payment_address w))); simpl; [discriminate|].
  intros H. injection H as <- <-. split; [reflexivity|]. intros k.
  unfold balance_tokens. rewrite lookup_balance_from by exact Hnd.
  destruct (existsb (holds k) (env_utxos env)) eqn:E; split.
  - reflexivity.
  - unfold qty. rewrite lookup_balance_from by exact Hnd. rewrite E. reflexivity.
  - reflexivity.
  - unfold qty. rewrite lookup_balance_from by exact Hnd. rewrite E.
    rewrite sum_key_absent by exact E. reflexivity.
Qed.

Lemma balance_sums_utxos_witness :
  let e := ex_env [ex_u1; ex_u2] "170000 Lovelace" cli_ok in
  Forall (fun u => NoDup (map fst (Tokens u))) (env_utxos e) /\
  fst (balance e ex_wallet) = Ok ([(lovelace_unit, 12000000); ("pA.A"%string, 5); ("pB.B"%string, 7)],
                                   [ex_u1; ex_u2]) /\
  ([ex_u1; ex_u2] = env_utxos e /\
   forall k,
     lookup k [(lovelace_unit, 12000000); ("pA.A"%string, 5); ("pB.B"%string, 7)] =
       (if existsb (holds k) [ex_u1; ex_u2]
        then Some (sum_Z (map (key k) [ex_u1; ex_u2])) else None) /\
     qty k [(lovelace_unit, 12000000); ("pA.A"%string, 5); ("pB.B"%string, 7)] =
       sum_Z (map (key k) [ex_u1; ex_u2])).
Proof.
  intros e.
  assert (H1 : Forall (fun u => NoDup (map fst (Tokens u))) (env_utxos e)).
  { repeat constructor; simpl; intuition discriminate. }
  assert (H2 : fst (balance e ex_wallet) =
               Ok ([(lovelace_unit, 12000000); ("pA.A"%string, 5); ("pB.B"%string, 7)],
                   [ex_u1; ex_u2])) by reflexivity.
  split; [exact H1|split; [exact H2|exact (balance_sums_utxos _ _ _ _ H1 H2)]].
Defined.

(** With the quotes removed by the parse, the documented formula does not
    size the five-part test bundle of [tests.py] to 30 words. *)
Lemma token_bundle_size_default_not_30 : token_bundle_size DEFAULT_TOKEN_BUNDLE <> 30.
Proof. vm_compute. congruence. Qed.

(** With the quotes removed, [DEFAULT_TOKEN_BUNDLE] parses into its five one-unit
    assets (three distinct 28-byte policy ids, distinct asset names of total
    length 31), so [byteCount = 5*12 + 31 + 3*28 = 175] and
    [bundleSizeWords = 6 + ceil((175 + 7) / 8) = 29]. *)
Theorem token_bundle_size_default :
  parse_bundle DEFAULT_TOKEN_BUNDLE =
    [(1, "fe1249f6a018ccc7a620df6226d6b9b9a63555593051b79885dc2e27");
     (1, "fe1249f6a018ccc7a620df6226d6b9b9a63555593051b79885dc2e28.TestNFT");
     (1, "fe1249f6a018ccc7a620df6226d6b9b9a63555593051b79885dc2e29.TestNFT2");
     (1, "fe1249f6a018ccc7a620df6226d6b9b9a63555593051b79885dc2e29.TestNFT3");
     (1, "fe1249f6a018ccc7a620df6226d6b9b9a63555593051b79885dc2e29.TestNFT4")]%string /\
  bundle_byte_count (parse_bundle DEFAULT_TOKEN_BUNDLE) = 175 /\
  token_bundle_size DEFAULT_TOKEN_BUNDLE
    = 6 + ceil_div (bundle_byte_count (parse_bundle DEFAULT_TOKEN_BUNDLE) + 7) 8 /\
  token_bundle_size DEFAULT_TOKEN_BUNDLE = 29.
Proof. vm_compute. repeat split. Qed.

(** With the quotes kept on the words, the closing quote lengthens the
    first policy id to 57 hex digits (29 bytes) and each asset name by one
    byte: [byteCount = 5*12 + 35 + (29 + 28 + 28) = 180] and
    [bundleSizeWords = 6 + ceil((180 + 7) / 8) = 30], the value that
    [test_token_bundle_size] asserts. *)
Lemma token_bundle_size_default_quotes_kept :
  bundle_byte_count (parse_bundle_quotes_kept DEFAULT_TOKEN_BUNDLE) = 180 /\
  bundle_size_words (parse_bundle_quotes_kept DEFAULT_TOKEN_BUNDLE) = 30.
Proof. vm_compute. split; reflexivity. Qed.

(** ** Parsing the fee *)

Lemma span_spec p s :
  s = (fst (span p s) ++ snd (span p s))%string /\
  all_chars p (fst (span p s)) = true /\ head_fails p (snd (span p s)).
Proof.
  induction s as [|c s IH]; simpl; [repeat split|].
  destruct (p c) eqn:E.
  - destruct (span p s) as [a b]; simpl in *. destruct IH as (-> & Ha & Hb).
    rewrite E, Ha. repeat split; assumption.
  - simpl. repeat split. exact E.
Qed.

Lemma span_app p a b :
  all_chars p a = true -> head_fails p b -> span p (a ++ b) = (a, b).
Proof.
  induction a as [|c a IH]; simpl; intros Ha Hb.
  - destruct b as [|c b]; simpl in *; [reflexivity|]. rewrite Hb. reflexivity.
  - apply andb_true_iff in Ha as [Hc Ha]. rewrite Hc, (IH Ha Hb). reflexivity.
Qed.

Lemma prefix_app_iff x s : String.prefix x s = true <-> exists r, s = (x ++ r)%string.
Proof.
  revert s. induction x as [|a x IH]; intros s.
  - split; [intros _; exists s; reflexivity|destruct s; reflexivity].
  - destruct s as [|b s]; simpl.
    + split; [discriminate|intros [r Hr]; discriminate Hr].
    + destruct (ascii_dec a b) as [<-|Hne].
      * rewrite IH. split; intros [r Hr]; exists r; [subst; reflexivity|injection Hr; auto].
      * split; [discriminate|intros [r Hr]; injection Hr as Hab _; congruence].
Qed.

Lemma string_eqb_empty s : String.eqb s EmptyString = true <-> s = EmptyString.
Proof. apply String.eqb_eq. Qed.

Lemma parse_min_fee_iff s n :
  parse_min_fee s = Some n <->
  exists ds ws r, fee_response_form s ds ws r /\ n = digits_value ds.
Proof.
  unfold parse_min_fee, min_fee_match.
  destruct (span_spec is_digit s) as (Hs1 & Hd & Hh1).
  destruct (span is_digit s) as [ds r1] eqn:E1; simpl in Hs1, Hd, Hh1.
  destruct (span_spec is_space r1) as (Hs2 & Hw & Hh2).
  destruct (span is_space r1) as [ws r2] eqn:E2; simpl in Hs2, Hw, Hh2.
  split.
  - destruct (negb (String.eqb ds EmptyString) && negb (String.eqb ws EmptyString)
              && String.prefix "Lovelace" r2) eqn:Ec; [|discriminate].
    intros H. injection H as <-.
    apply andb_true_iff in Ec as [Ec Hp]. apply andb_true_iff in Ec as [Eds Ews].
    apply negb_true_iff in Eds, Ews. apply prefix_app_iff in Hp as [r Hr].
    exists ds, ws, r. split; [|reflexivity].
    repeat split; try assumption.
    + intros ->. rewrite String.eqb_refl in Eds. discriminate.
    + intros ->. rewrite String.eqb_refl in Ews. discriminate.
    + rewrite Hs1, Hs2, Hr. reflexivity.
  - intros (ds' & ws' & r & (Hne1 & Hd' & Hne2 & Hw' & Hs) & ->).
    assert (Hh : head_fails is_digit (ws' ++ "Lovelace" ++ r)%string).
    { destruct ws' as [|c w]; [congruence|]. simpl in Hw' |- *.
      apply andb_true_iff in Hw' as [Hc _]. revert Hc.
      unfold is_space, is_digit. destruct (nat_of_ascii c) as [|m] eqn:Em;
      [reflexivity|].
      intros Hc. apply orb_true_iff in Hc as [Hc|Hc]; apply andb_true_iff in Hc as [H1 H2];
        apply Nat.leb_le in H1, H2; apply andb_false_iff; left; apply Nat.leb_gt; lia. }
    rewrite Hs, (span_app _ _ _ Hd' Hh) in E1. injection E1 as <- <-.
    rewrite span_app in E2; [|exact Hw'|reflexivity].
    injection E2 as <- E2.
    assert (Hp : String.prefix "Lovelace" r2 = true)
      by (apply prefix_app_iff; exists r; rewrite <- E2; reflexivity).
    rewrite Hp.
    destruct (String.eqb ds' EmptyString) eqn:Ed; [apply String.eqb_eq in Ed; congruence|].
    destruct (String.eqb ws' EmptyString) eqn:Ew; [apply String.eqb_eq in Ew; congruence|].
    reflexivity.
Qed.

(** C6: once the draft body exists and the node answers, the fee estimator
    returns [fee] exactly when the node's response starts with a non-empty
    run of digits, then whitespace, then [Lovelace], [fee] being the integer
    those digits spell; a response of any other shape (no leading number,
    no whitespace, no unit) raises [TypeError] and never yields a fee. *)
Theorem calculate_min_fee_parses env tx b :
  tx_draft tx = Some b ->
  env_fails env QueryProtocolParameters = false ->
  env_fails env (CalculateMinFee (List.length (tx_inputs tx)) (List.length (tx_outputs tx))
                   (if tx_minting_policy tx then 2 else 1)%nat) = false ->
  (forall fee,
     fst (calculate_min_fee env tx) = Ok fee <->
     exists ds ws r, fee_response_form (env_min_fee_response env) ds ws r /\
                     fee = digits_value ds) /\
  ((forall ds ws r, ~ fee_response_form (env_min_fee_response env) ds ws r) ->
   fst (calculate_min_fee env tx) = Raise TypeError).
Proof.
  intros Hd Hq Hc.
  assert (E : fst (calculate_min_fee env tx) =
              match parse_min_fee (env_min_fee_response env) with
              | Some fee => Ok fee | None => Raise TypeError end).
  { unfold calculate_min_fee, refresh_protocol_parameters, cli_run, bind, ret, raise.
    rewrite Hd, Hq, Hc. simpl.
    destruct (parse_min_fee (env_min_fee_response env)); reflexivity. }
  rewrite E. split.
  - intros fee. rewrite <- parse_min_fee_iff.
    destruct (parse_min_fee (env_min_fee_response env)); split; congruence.
  - intros Hno. destruct (parse_min_fee (env_min_fee_response env)) as [n|] eqn:Ep;
      [|reflexivity].
    apply parse_min_fee_iff in Ep as (ds & ws & r & Hf & _). exfalso. exact (Hno ds ws r Hf).
Qed.

Lemma calculate_min_fee_parses_witness :
  let e := ex_env [] "170000 Lovelace" cli_ok in
  fst (calculate_min_fee e ex_drafted_tx) = Ok 170000 /\
  (forall fee,
     fst (calculate_min_fee e ex_drafted_tx) = Ok fee <->
     exists ds ws r, fee_response_form (env_min_fee_response e) ds ws r /\
                     fee = digits_value ds) /\
  ((forall ds ws r, ~ fee_response_form (env_min_fee_response e) ds ws r) ->
   fst (calculate_min_fee e ex_drafted_tx) = Raise TypeError).
Proof.
  intros e. split; [reflexivity|].
  exact (calculate_min_fee_parses e ex_drafted_tx (mkBuildArgs [] 0 None None None false)
           eq_refl eq_refl eq_refl).
Defined.

(** C7: [MintingPolicyManager.create] inserts the policy record only after
    key generation, key hashing and the policy id have all succeeded: when
    any of the three node calls fails it raises and the stored policy
    records are unchanged (the encrypted key files and the script file
    written before the failure point are not records); when none fails
    exactly one record is appended, with the node's policy id and a
    signature script on the node's key hash. *)
Theorem create_policy_persists_only_on_success env password ib ih st :
  (env_fails env AddressKeyGen || env_fails env AddressKeyHash
     || env_fails env TransactionPolicyId = true ->
   (exists e, fst (create_policy env password ib ih st) = Raise e) /\
   db_policies (snd (create_policy env password ib ih st)) = db_policies st) /\
  (env_fails env AddressKeyGen || env_fails env AddressKeyHash
     || env_fails env TransactionPolicyId = false ->
   exists p,
     fst (create_policy env password ib ih st) = Ok p /\
     db_policies (snd (create_policy env password ib ih st)) = db_policies st ++ [p] /\
     policy_id p = env_policy_id env /\
     hd_error (policy_scripts p) = Some (ScriptSig (env_key_hash env))).
Proof.
  unfold create_policy.
  destruct (env_fails env AddressKeyGen) eqn:E1;
  [|destruct (env_fails env AddressKeyHash) eqn:E2;
    [|destruct (env_fails env TransactionPolicyId) eqn:E3]];
  simpl; split; intros H; try discriminate H;
  try (split; [eexists; reflexivity|reflexivity]).
  eexists. repeat split.
Qed.

Lemma create_policy_persists_only_on_success_witness :
  let e := ex_env [] "170000 Lovelace"
             (fun c => match c with AddressKeyHash => true | _ => false end) in
  let st := mkStore [] [] in
  fst (create_policy e "pw" None None st) = Raise (CliFailure AddressKeyHash) /\
  stored_files (snd (create_policy e "pw" None None st))
    = ["signing.key.aes"; "verification.key.aes"]%string /\
  (env_fails e AddressKeyGen || env_fails e AddressKeyHash
     || env_fails e TransactionPolicyId = true ->
   (exists err, fst (create_policy e "pw" None None st) = Raise err) /\
   db_policies (snd (create_policy e "pw" None None st)) = db_policies st) /\
  (env_fails e AddressKeyGen || env_fails e AddressKeyHash
     || env_fails e TransactionPolicyId = false ->
   exists p,
     fst (create_policy e "pw" None None st) = Ok p /\
     db_policies (snd (create_policy e "pw" None None st)) = db_policies st ++ [p] /\
     policy_id p = env_policy_id e /\
     hd_error (policy_scripts p) = Some (ScriptSig (env_key_hash e))).
Proof.
  intros e st. split; [reflexivity|split; [reflexivity|]].
  exact (create_policy_persists_only_on_success e "pw" None None st).
Defined.

(** ** Finalised transactions on concrete snapshots *)

(** C1 (failing input): [send_tokens] of 3 [pA.A] from a wallet holding
    [ex_u1] (10 ADA) and [ex_u2] (2 ADA, 5 [pA.A], 7 [pB.B]) spends both
    UTxOs and is submitted; the lovelace balances ([12000000] in, outputs
    plus the [170000] fee out), but the 7 [pB.B] of [ex_u2] appear in no
    output although [pB.B] is neither minted nor burned. *)
Lemma send_tokens_drops_other_assets :
  match send_tokens (ex_env [ex_u1; ex_u2] "170000 Lovelace" cli_ok) ex_wallet
          "pA.A" 3 "addr_to" (Some "pw"%string) with
  | (Ok tx, tr) =>
      In Submit tr /\
      tx_inputs tx = [utxo_ref ex_u1; utxo_ref ex_u2] /\
      sum_Z (map out_lovelace (tx_outputs tx)) + 170000
        = sum_Z (map (key lovelace_unit) [ex_u1; ex_u2]) /\
      outputs_qty "pA.A" (tx_outputs tx) = sum_Z (map (key "pA.A") [ex_u1; ex_u2]) /\
      sum_Z (map (key "pB.B") [ex_u1; ex_u2]) = 7 /\
      outputs_qty "pB.B" (tx_outputs tx) = 0
  | (Raise _, _) => False
  end.
Proof. vm_compute. intuition congruence. Qed.

(** C2 (failing input): [send_lovelace] of 0.8 ADA from a single UTxO of
    1 ADA with [minUTxOValue = 1000000] and a fee of [170000] rewrites the
    change output to [30000] lovelace, below the minimum, and still signs
    and submits the transaction. *)
Lemma send_lovelace_change_below_min_utxo :
  match send_lovelace (ex_env [ex_small] "170000 Lovelace" cli_ok) ex_wallet
          800000 "addr_to" (Some "pw"%string) with
  | (Ok tx, tr) =>
      In (Sign false) tr /\ In Submit tr /\
      map out_lovelace (tx_outputs tx) = [800000; 30000] /\
      30000 < minUTxOValue ex_params
  | (Raise _, _) => False
  end.
Proof. vm_compute. intuition congruence. Qed.

(** C3 (failing input): on a token-only wallet ([ex_token_only] holds
    lovelace together with [pA.A]) [send_lovelace] has no lovelace-only UTxO
    to spend and raises no insufficient-funds error: with a node that
    accepts every command it builds, signs and submits a transaction without
    inputs; with a node that rejects a body without inputs it fails with that
    node error.  [send_tokens] on the same wallet does raise
    [InsufficientFunds] before any node submission. *)
Lemma send_lovelace_token_only_wallet :
  (match send_lovelace (ex_env [ex_token_only] "170000 Lovelace" cli_ok) ex_wallet
           1000000 "addr_to" (Some "pw"%string) with
   | (Ok tx, tr) => tx_inputs tx = [] /\ In Submit tr
   | (Raise _, _) => False
   end) /\
  (match send_lovelace (ex_env [ex_token_only] "170000 Lovelace" cli_needs_tx_in) ex_wallet
           1000000 "addr_to" (Some "pw"%string) with
   | (Raise (CliFailure (BuildRaw _)), tr) => ~ In Submit tr
   | _ => False
   end) /\
  (match send_tokens (ex_env [ex_token_only] "170000 Lovelace" cli_ok) ex_wallet
           "pA.A" 3 "addr_to" (Some "pw"%string) with
   | (Raise (InsufficientFunds _), tr) => ~ In Submit tr
   | _ => False
   end).
Proof. vm_compute. intuition congruence. Qed.

(** ** Draft and final body *)

Lemma build_raws_app l1 l2 : build_raws (l1 ++ l2) = build_raws l1 ++ build_raws l2.
Proof.
  induction l1 as [|c l1 IH]; simpl; [reflexivity|].
  destruct c; simpl; rewrite ?IH; reflexivity.
Qed.

Lemma quiet_ret {A} (a : A) : quiet (ret a).
Proof. reflexivity. Qed.

Lemma quiet_raise {A} e : quiet (@raise A e).
Proof. reflexivity. Qed.

Lemma quiet_bind {A B} (m : M A) (f : A -> M B) :
  quiet m -> (forall a, quiet (f a)) -> quiet (bind m f).
Proof.
  unfold quiet. destruct m as [[a|e] w]; simpl; intros Hm Hf; [|exact Hm].
  specialize (Hf a). destruct (f a) as [r w']. simpl in *.
  rewrite build_raws_app, Hm, Hf. reflexivity.
Qed.

Lemma quiet_cli_run env c : build_raws [c] = [] -> quiet (cli_run env c).
Proof. unfold quiet, cli_run. destruct (env_fails env c); exact (fun H => H). Qed.

Lemma quiet_lift_key {A} k (o : option A) : quiet (lift_key k o).
Proof. destruct o; reflexivity. Qed.

Lemma quiet_get_token u k : quiet (get_token u k).
Proof. apply quiet_lift_key. Qed.

Lemma quiet_refresh env : quiet (refresh_protocol_parameters env).
Proof. apply quiet_bind; [apply quiet_cli_run; reflexivity|intros; apply quiet_ret]. Qed.

Lemma quiet_query_tip_slot env : quiet (query_tip_slot env).
Proof. apply quiet_bind; [apply quiet_cli_run; reflexivity|intros; apply quiet_ret]. Qed.

Lemma quiet_wallet_utxos env w : quiet (wallet_utxos env w).
Proof. apply quiet_bind; [apply quiet_cli_run; reflexivity|intros; apply quiet_ret]. Qed.

Lemma quiet_wallet_lovelace_utxos env w : quiet (wallet_lovelace_utxos env w).
Proof. apply quiet_bind; [apply quiet_wallet_utxos|intros; apply quiet_ret]. Qed.

Lemma quiet_balance env w : quiet (balance env w).
Proof. apply quiet_bind; [apply quiet_wallet_utxos|intros; apply quiet_ret]. Qed.

Lemma quiet_take_tokens a q t l us : quiet (take_tokens a q t l us).
Proof.
  revert t l. induction us as [|u us IH]; intros t l; simpl; [apply quiet_ret|].
  apply quiet_bind; [apply quiet_get_token|intros x].
  apply quiet_bind; [apply quiet_get_token|intros y].
  destruct (q <=? t + x); [apply quiet_ret|].
  apply quiet_bind; [apply IH|intros [[sel t'] lv]; apply quiet_ret].
Qed.

Lemma quiet_sum_lovelace us s : quiet (sum_lovelace us s).
Proof.
  revert s. induction us as [|u us IH]; intros s; simpl; [apply quiet_ret|].
  apply quiet_bind; [apply quiet_get_token|intros; apply IH].
Qed.

Lemma quiet_calculate_min_fee env tx : quiet (calculate_min_fee env tx).
Proof.
  unfold calculate_min_fee. destruct (tx_draft tx); [|apply quiet_raise].
  apply quiet_bind; [apply quiet_refresh|intros].
  apply quiet_bind; [apply quiet_cli_run; reflexivity|intros].
  destruct (parse_min_fee (env_min_fee_response env)); [apply quiet_ret|apply quiet_raise].
Qed.

Lemma quiet_set_last {A} (l : list A) o : quiet (set_last l o).
Proof. unfold set_last. destruct (replace_last l o); reflexivity. Qed.

Lemma quiet_ttl_slot env ih : quiet (ttl_slot env ih).
Proof.
  unfold ttl_slot. destruct ih as [s|]; [destruct (Z.eqb s 0)|];
    try apply quiet_ret; apply quiet_bind; auto using quiet_query_tip_slot, quiet_ret.
Qed.

Create HintDb quiet.
#[local] Hint Resolve quiet_ret quiet_raise quiet_lift_key quiet_get_token quiet_refresh
  quiet_query_tip_slot quiet_wallet_utxos quiet_wallet_lovelace_utxos quiet_balance
  quiet_take_tokens quiet_sum_lovelace quiet_calculate_min_fee quiet_set_last
  quiet_ttl_slot : quiet.

Lemma bind_ok_quiet {A B} (m : M A) (f : A -> M B) b tr :
  quiet m -> bind m f = (Ok b, tr) ->
  exists a tr2, fst m = Ok a /\ f a = (Ok b, tr2) /\ build_raws tr = build_raws tr2.
Proof.
  unfold quiet. destruct m as [[a|e] tr1]; simpl; intros Hq H; [|discriminate].
  destruct (f a) as [r tr2] eqn:E. injection H as -> <-.
  exists a, tr2. rewrite build_raws_app, Hq. auto.
Qed.

Lemma bind_bind_ok_quiet {A B C} (m : M A) (f : A -> M B) (k : B -> M C) c tr :
  quiet m -> bind (bind m f) k = (Ok c, tr) ->
  exists a tr2, fst m = Ok a /\ bind (f a) k = (Ok c, tr2) /\ build_raws tr = build_raws tr2.
Proof.
  unfold quiet. destruct m as [[a|e] tr1]; simpl; intros Hq H; [|discriminate].
  exists a. destruct (f a) as [[b|e] tr2] eqn:E; simpl in *.
  - destruct (k b) as [r tr3] eqn:Ek. injection H as -> <-.
    exists (tr2 ++ tr3). rewrite <- app_assoc, build_raws_app, Hq. auto.
  - discriminate.
Qed.

Lemma bind_bind_ok_inv {A B C} (m : M A) (f : A -> M B) (k : B -> M C) c tr :
  bind (bind m f) k = (Ok c, tr) ->
  exists a tr1 tr2, m = (Ok a, tr1) /\ bind (f a) k = (Ok c, tr2) /\ tr = tr1 ++ tr2.
Proof.
  destruct m as [[a|e] tr1]; simpl; intros H; [|discriminate].
  exists a, tr1. destruct (f a) as [[b|e] tr2] eqn:E; simpl in *; [|discriminate].
  destruct (k b) as [r tr3] eqn:Ek. injection H as -> <-.
  exists (tr2 ++ tr3). rewrite app_assoc. auto.
Qed.

Lemma bind_ret_l {A B} (a : A) (k : A -> M B) : bind (ret a) k = k a.
Proof. unfold bind, ret. destruct (k a). reflexivity. Qed.

Lemma cli_run_ok env c u tr : cli_run env c = (Ok u, tr) -> tr = [c].
Proof. unfold cli_run. destruct (env_fails env c); congruence. Qed.

Ltac solve_quiet :=
  first
    [ solve [auto with quiet]
    | apply quiet_cli_run; reflexivity
    | apply quiet_bind; [solve_quiet | intros; solve_quiet]
    | match goal with |- quiet (match ?x with _ => _ end) => destruct x; solve_quiet end ].

Ltac peel H :=
  let a := fresh "a" in let tr2 := fresh "tr" in let Hm := fresh "Hm" in
  let Hb := fresh "Hb" in
  lazymatch type of H with
  | bind (bind ?m ?f) ?k = _ =>
      let Hq := fresh "Hq" in
      assert (Hq : quiet m) by solve_quiet;
      destruct (bind_bind_ok_quiet m f k _ _ Hq H) as (a & tr2 & Hm & H' & Hb);
      clear H Hq; rename H' into H; cbv beta in H
  | bind ?m ?f = _ =>
      let Hq := fresh "Hq" in
      assert (Hq : quiet m) by solve_quiet;
      destruct (bind_ok_quiet m f _ _ Hq H) as (a & tr2 & Hm & H' & Hb);
      clear H Hq; rename H' into H; cbv beta in H
  end.

Lemma bind_generate_draft {B} env tx0 mint (k : Transaction -> M B) b tr :
  bind (generate_draft env tx0 mint) k = (Ok b, tr) ->
  exists tr2,
    k (set_draft tx0 (mkBuildArgs (tx_args tx0) 0 None mint (tx_metadata tx0)
                        (if tx_minting_policy tx0 then true else false))) = (Ok b, tr2) /\
    build_raws tr = mkBuildArgs (tx_args tx0) 0 None mint (tx_metadata tx0)
                      (if tx_minting_policy tx0 then true else false) :: build_raws tr2.
Proof.
  unfold generate_draft, cli_run, bind, ret.
  match goal with |- context [env_fails env ?c] => destruct (env_fails env c) end;
    simpl; [discriminate|].
  match goal with |- context [k ?x] => destruct (k x) as [r tr2] eqn:E end.
  intros H. injection H as -> <-. exists tr2. auto.
Qed.

Lemma bind_submit {B} env tx w fee pw ih mint (k : Transaction -> M B) b tr :
  bind (submit env tx w fee pw ih mint) k = (Ok b, tr) ->
  exists ttl tr2,
    k (set_tx_id tx (env_tx_id env)) = (Ok b, tr2) /\
    build_raws tr = mkBuildArgs (tx_args tx) fee (Some ttl) mint (tx_metadata tx)
                      (if tx_minting_policy tx then true else false) :: build_raws tr2.
Proof.
  intros H. unfold submit in H. peel H. rename a into ttl.
  apply bind_bind_ok_inv in H as (u & tr1 & tr2 & Ec & H & ->).
  pose proof (cli_run_ok _ _ _ _ Ec) as ->. clear Ec. cbv beta in H.
  peel H. peel H. peel H. peel H.
  assert (Hq : quiet (cli_run env Submit)) by (apply quiet_cli_run; reflexivity).
  destruct (bind_bind_ok_quiet _ _ k _ _ Hq H) as (a' & tr5 & _ & E5 & Hb5).
  rewrite bind_ret_l in E5.
  exists ttl, tr5. split; [exact E5|].
  rewrite Hb. simpl. rewrite Hb0, Hb1, Hb2, Hb3, Hb5. reflexivity.
Qed.

Lemma replace_last_spec {A} (l : list A) o r :
  replace_last l o = Some r -> exists init last, l = init ++ [last] /\ r = init ++ [o].
Proof.
  revert r. induction l as [|x l IH]; intros r; simpl; [discriminate|].
  destruct l as [|y l].
  - intros H. injection H as <-. exists [], x. auto.
  - destruct (replace_last (y :: l) o) as [r'|] eqn:E; [|discriminate].
    intros H. injection H as <-. destruct (IH r' eq_refl) as (init & last & -> & ->).
    exists (x :: init), last. auto.
Qed.

(** The common tail of the five use cases: draft, fee, rewrite of the last
    output, submission and save. *)
Lemma finalize_frame env tx0 mint w pw ih (o : Z -> TxOut) tx tr :
  bind (generate_draft env tx0 mint) (fun transaction =>
    bind (calculate_min_fee env transaction) (fun tx_fee =>
    bind (set_last (tx_outputs transaction) (o tx_fee)) (fun outputs =>
    bind (submit env (set_outputs transaction outputs) w tx_fee pw ih mint) (fun transaction =>
    ret (save transaction))))) = (Ok tx, tr) ->
  draft_then_final tr tx.
Proof.
  intros H. apply bind_generate_draft in H as (tr2 & H & Hb). cbv beta in H.
  peel H. rename a into fee. peel H. rename a into outputs.
  unfold set_last in Hm0. simpl in Hm0.
  destruct (replace_last (tx_outputs tx0) (o fee)) as [outs|] eqn:Er; [|discriminate].
  injection Hm0 as <-.
  destruct (replace_last_spec _ _ _ Er) as (init & last & Hl & ->).
  apply bind_submit in H as (ttl & tr4 & H & Hb3). unfold ret in H. injection H as <- <-.
  exists init, last, (o fee), fee, ttl, mint, (tx_metadata tx0),
    (if tx_minting_policy tx0 then true else false).
  split; [reflexivity|].
  rewrite Hb, Hb0, Hb1, Hb3. simpl. unfold tx_args, input_args. simpl. rewrite Hl. reflexivity.
Qed.

(** C8: in each of the five wallet use cases, a transaction that is
    finalised (the password is given, and non-empty where the code tests
    its truth) comes with exactly two [build-raw] bodies: the draft at fee
    [0] with no [invalid-hereafter], then the final one; both spend exactly
    the transaction's inputs, and the final outputs are the draft's with
    only the last one (the change) replaced. *)
Theorem use_cases_draft_then_final env w :
  (forall quantity to_address pw tx tr,
     truthy pw = true ->
     send_lovelace env w quantity to_address (Some pw) = (Ok tx, tr) ->
     draft_then_final tr tx) /\
  (forall asset_id quantity to_address pw tx tr,
     truthy pw = true ->
     send_tokens env w asset_id quantity to_address (Some pw) = (Ok tx, tr) ->
     draft_then_final tr tx) /\
  (forall pw tx tr,
     truthy pw = true ->
     consolidate_utxos env w (Some pw) = (Ok tx, tr) ->
     draft_then_final tr tx) /\
  (forall values pw tx tr,
     partition_lovelace env w values (Some pw) = (Ok tx, tr) ->
     draft_then_final tr tx) /\
  (forall policy quantity to_address sp mp asset_name metadata payment_utxo change_address tx tr,
     mint_tokens env w policy quantity to_address (Some sp) (Some mp) asset_name metadata
       payment_utxo change_address = (Ok tx, tr) ->
     draft_then_final tr tx).
Proof.
  repeat split.
  - intros q to pw tx tr Ht H. unfold send_lovelace in H.
    peel H. peel H. peel H. peel H. destruct a2 as [sel total].
    rewrite Ht in H. cbv beta iota zeta in H.
    unfold draft_then_final. rewrite Hb, Hb0, Hb1, Hb2. eapply finalize_frame. exact H.
  - intros asset q to pw tx tr Ht H. unfold send_tokens in H.
    peel H. peel H. peel H. peel H.
    destruct a1 as [|lu lus]; cbv beta iota zeta in H; [unfold raise in H; discriminate H|].
    peel H. peel H.
    match goal with r : (list Utxo * Z * Z)%type |- _ => destruct r as [[tin tt] tl] end.
    destruct (tt <? q); cbv beta iota zeta in H; [unfold raise in H; discriminate H|].
    destruct (0 <? tt - q); rewrite Ht in H; cbv beta iota zeta in H;
    unfold draft_then_final; rewrite Hb, Hb0, Hb1, Hb2, Hb3, Hb4;
    eapply finalize_frame; exact H.
  - intros pw tx tr Ht H. unfold consolidate_utxos in H.
    peel H. destruct a as [all_tokens utxos]. cbv beta iota zeta in H.
    destruct (token_outputs env (payment_address w) (dict_del lovelace_unit all_tokens)
                (qty lovelace_unit all_tokens)) as [outs rem].
    rewrite Ht in H. cbv beta iota zeta in H.
    unfold draft_then_final. rewrite Hb. eapply finalize_frame. exact H.
  - intros vs pw tx tr H. unfold partition_lovelace in H.
    peel H. peel H. cbv beta iota zeta in H.
    unfold draft_then_final. rewrite Hb, Hb0. eapply finalize_frame. exact H.
  - intros policy q to sp mp an md pu ca tx tr H. unfold mint_tokens in H.
    peel H. peel H. cbv beta iota zeta in H.
    unfold draft_then_final. rewrite Hb, Hb0. eapply finalize_frame. exact H.
Qed.

Lemma use_cases_draft_then_final_witness :
  truthy "pw" = true /\
  match send_lovelace (ex_env [ex_u1; ex_u2] "170000 Lovelace" cli_ok) ex_wallet
          4000000 "addr_to" (Some "pw"%string) with
  | (Ok tx, tr) => draft_then_final tr tx
  | (Raise _, _) => False
  end.
Proof.
  split; [reflexivity|].
  destruct (send_lovelace (ex_env [ex_u1; ex_u2] "170000 Lovelace" cli_ok) ex_wallet
              4000000 "addr_to" (Some "pw"%string)) as [[tx|err] tr] eqn:E.
  - exact (proj1 (use_cases_draft_then_final (ex_env [ex_u1; ex_u2] "170000 Lovelace" cli_ok)
                    ex_wallet) 4000000 "addr_to"%string "pw"%string tx tr eq_refl E).
  - vm_compute in E. discriminate E.
Defined.

(** * Further properties of the code *)

(** ** Cleaning asset names *)

Lemma clean_token_asset_name_length s :
  (String.length (clean_token_asset_name s) <= String.length s)%nat.
Proof.
  induction s as [|c s IH]; simpl; [lia|]. destruct (is_alphanumeric c); simpl; lia.
Qed.

(** X1: [clean_token_asset_name] keeps exactly the ASCII letters and digits
    of its input, in order; its result is alphanumeric, cleaning twice is
    cleaning once, and a name is left unchanged exactly when it is already
    alphanumeric. *)
Theorem clean_token_asset_name_keeps_alphanumeric s :
  list_ascii_of_string (clean_token_asset_name s)
    = filter is_alphanumeric (list_ascii_of_string s) /\
  all_chars is_alphanumeric (clean_token_asset_name s) = true /\
  clean_token_asset_name (clean_token_asset_name s) = clean_token_asset_name s /\
  (clean_token_asset_name s = s <-> all_chars is_alphanumeric s = true).
Proof.
  induction s as [|c s (IH1 & IH2 & IH3 & IH4)]; simpl; [repeat split; reflexivity|].
  destruct (is_alphanumeric c) eqn:Ec; simpl.
  - rewrite IH1, IH2, Ec, IH3. repeat split; try reflexivity.
    + intros H. injection H as H. apply IH4. exact H.
    + intros H. f_equal. apply IH4. exact H.
  - repeat split; try assumption.
    + intros H. exfalso. pose proof (clean_token_asset_name_length s) as Hl.
      rewrite H in Hl. simpl in Hl. lia.
    + discriminate.
Qed.

(** ** Lovelace-only and token UTxOs *)

Lemma filter_utxos_exclude_lovelace us :
  filter_utxos us None (Some lovelace_unit) =
  filter (fun u => Nat.ltb 1 (List.length (map fst (Tokens u)))
                   || negb (holds lovelace_unit u)) us.
Proof.
  induction us as [|u us IH]; simpl; [reflexivity|].
  rewrite IH. unfold holds. destruct (Nat.ltb 1 _); simpl; [reflexivity|].
  destruct (in_asset_types _ _); reflexivity.
Qed.

Lemma Permutation_filter_split {A} (p q : A -> bool) l :
  (forall x, In x l -> q x = negb (p x)) ->
  Permutation (filter p l ++ filter q l) l.
Proof.
  induction l as [|x l IH]; simpl; intros H; [constructor|].
  rewrite (H x (or_introl eq_refl)).
  assert (IH' := IH (fun y Hy => H y (or_intror Hy))).
  destruct (p x); simpl.
  - constructor. exact IH'.
  - rewrite <- Permutation_middle. constructor. exact IH'.
Qed.

Lemma wallet_utxos_ok env w us : fst (wallet_utxos env w) = Ok us -> us = env_utxos env.
Proof.
  unfold wallet_utxos, cli_run, bind, ret.
  destruct (env_fails env _); simpl; congruence.
Qed.

Lemma wallet_lovelace_utxos_ok env w us :
  fst (wallet_lovelace_utxos env w) = Ok us ->
  us = filter_utxos (env_utxos env) (Some lovelace_unit) None.
Proof.
  unfold wallet_lovelace_utxos, wallet_utxos, cli_run, bind, ret.
  destruct (env_fails env _); simpl; congruence.
Qed.

Lemma wallet_token_utxos_ok env w us :
  fst (wallet_token_utxos env w) = Ok us ->
  us = filter_utxos (env_utxos env) None (Some lovelace_unit).
Proof.
  unfold wallet_token_utxos, wallet_utxos, cli_run, bind, ret.
  destruct (env_fails env _); simpl; congruence.
Qed.

(** X2: when every single-asset UTxO of the wallet holds lovelace, the
    wallet's [lovelace_utxos] and [token_utxos] together are a permutation
    of its [utxos]: each UTxO lands in exactly one of the two lists. *)
Theorem lovelace_token_utxos_partition env w ls ts :
  (forall u, In u (env_utxos env) -> List.length (Tokens u) = 1%nat ->
             holds lovelace_unit u = true) ->
  fst (wallet_lovelace_utxos env w) = Ok ls ->
  fst (wallet_token_utxos env w) = Ok ts ->
  Permutation (ls ++ ts) (env_utxos env).
Proof.
  intros Hsingle Hl Ht.
  rewrite (wallet_lovelace_utxos_ok _ _ _ Hl), (wallet_token_utxos_ok _ _ _ Ht).
  rewrite filter_utxos_include, filter_utxos_exclude_lovelace.
  apply Permutation_filter_split. intros u Hu.
  rewrite String.eqb_refl, length_map.
  specialize (Hsingle u Hu). unfold holds in *.
  destruct (Tokens u) as [|t [|t' ts']]; simpl; [reflexivity| |reflexivity].
  specialize (Hsingle eq_refl). simpl in Hsingle. rewrite Hsingle. reflexivity.
Qed.

(** ** Stability and errors of [sort_utxos] *)

Lemma before_neq o a b : before o a b = true -> a <> b.
Proof.
  unfold before. destruct (String.eqb o "desc"); rewrite Z.ltb_lt; lia.
Qed.

Lemma insert_by_filter o k x l :
  filter (fun p => fst p =? k) (insert_by o x l) =
  if fst x =? k then x :: filter (fun p => fst p =? k) l
  else filter (fun p => fst p =? k) l.
Proof.
  induction l as [|y ys IH]; simpl; [destruct (fst x =? k); reflexivity|].
  destruct (before o (fst y) (fst x)) eqn:Eb; simpl.
  - rewrite IH. destruct (fst x =? k) eqn:Ex; [|reflexivity].
    apply Z.eqb_eq in Ex. apply before_neq in Eb.
    destruct (fst y =? k) eqn:Ey; [apply Z.eqb_eq in Ey; lia|reflexivity].
  - destruct (fst x =? k); reflexivity.
Qed.

Lemma sort_by_filter o k l :
  filter (fun p => fst p =? k) (sort_by o l) = filter (fun p => fst p =? k) l.
Proof.
  induction l as [|x xs IH]; simpl; [reflexivity|].
  rewrite insert_by_filter, IH. reflexivity.
Qed.

Lemma map_snd_filter_key type k l :
  Forall (fun p => lookup type (Tokens (snd p)) = Some (fst p)) l ->
  map snd (filter (fun p => fst p =? k) l) = filter (fun u => key type u =? k) (map snd l).
Proof.
  induction 1 as [|p l Hp _ IH]; simpl; [reflexivity|].
  unfold key, qty at 1. rewrite Hp. destruct (fst p =? k); simpl; rewrite IH; reflexivity.
Qed.

(** X3: [sort_utxos] is stable: among UTxOs with the same quantity of the
    sort key, the sorted list keeps their original relative order. *)
Theorem sort_utxos_stable us type order sorted :
  sort_utxos us type order = Some sorted ->
  forall k, filter (fun u => key type u =? k) sorted = filter (fun u => key type u =? k) us.
Proof.
  unfold sort_utxos. destruct (decorate type us) as [d|] eqn:Ed; [|discriminate].
  intros H k. injection H as <-.
  destruct (decorate_spec _ _ _ Ed) as [Hsnd Hkeys].
  assert (Hkeys' : Forall (fun p => lookup type (Tokens (snd p)) = Some (fst p))
                     (sort_by order d))
    by (eapply Permutation_Forall; [symmetry; apply sort_by_perm | exact Hkeys]).
  rewrite <- (map_snd_filter_key _ _ _ Hkeys'), sort_by_filter,
    (map_snd_filter_key _ _ _ Hkeys), Hsnd.
  reflexivity.
Qed.

(** X4: [sort_utxos] raises [KeyError] exactly when some UTxO of the list
    has no entry for the sort key. *)
Theorem sort_utxos_key_error us type order :
  sort_utxos us type order = None <-> exists u, In u us /\ lookup type (Tokens u) = None.
Proof.
  unfold sort_utxos. split.
  - destruct (decorate type us) as [d|] eqn:Ed; [discriminate|intros _].
    induction us as [|u us IH]; simpl in Ed; [discriminate|].
    destruct (lookup type (Tokens u)) as [q|] eqn:Eq.
    + destruct (decorate type us) as [d|]; [discriminate|].
      destruct (IH eq_refl) as (v & Hv & Hl). exists v. split; [right|]; assumption.
    + exists u. split; [left; reflexivity|exact Eq].
  - intros (u & Hu & Hl). destruct (decorate type us) as [d|] eqn:Ed; [|reflexivity].
    exfalso. destruct (decorate_spec _ _ _ Ed) as [Hsnd Hkeys].
    rewrite <- Hsnd in Hu. apply in_map_iff in Hu as (p & <- & Hp).
    rewrite Forall_forall in Hkeys. rewrite (Hkeys p Hp) in Hl. discriminate.
Qed.

(** ** Parsing the [query utxo] table *)

Lemma str_app_assoc (a b c : string) : ((a ++ b) ++ c = a ++ b ++ c)%string.
Proof. induction a as [|x a IH]; simpl; [reflexivity|]. rewrite IH. reflexivity. Qed.

Lemma str_app_nil (a : string) : (a ++ EmptyString = a)%string.
Proof. induction a as [|x a IH]; simpl; [reflexivity|]. rewrite IH. reflexivity. Qed.

Lemma all_chars_app p a b :
  all_chars p (a ++ b) = all_chars p a && all_chars p b.
Proof. induction a as [|c a IH]; simpl; [reflexivity|]. rewrite IH, andb_assoc. reflexivity. Qed.

Lemma all_chars_impl (p q : ascii -> bool) s :
  (forall c, p c = true -> q c = true) -> all_chars p s = true -> all_chars q s = true.
Proof.
  intros H. induction s as [|c s IH]; simpl; [reflexivity|].
  intros Hs. apply andb_true_iff in Hs as [Hc Hs]. rewrite (H c Hc). exact (IH Hs).
Qed.

Lemma all_chars_concat p sep xs :
  all_chars p sep = true -> Forall (fun x => all_chars p x = true) xs ->
  all_chars p (String.concat sep xs) = true.
Proof.
  intros Hsep. induction 1 as [|x xs Hx Hxs IH]; [reflexivity|].
  destruct xs as [|y ys]; [exact Hx|].
  change (String.concat sep (x :: y :: ys)) with (x ++ sep ++ String.concat sep (y :: ys))%string.
  rewrite !all_chars_app, Hx, Hsep, IH. reflexivity.
Qed.

(** Character classes. *)

Ltac char_class :=
  repeat match goal with
  | H : _ && _ = true |- _ => apply andb_true_iff in H as [? ?]
  | H : _ || _ = true |- _ => apply orb_true_iff in H as [?|?]
  | H : Nat.leb _ _ = true |- _ => apply Nat.leb_le in H
  end.

Lemma digit_not_space c : is_digit c = true -> is_space c = false.
Proof.
  unfold is_digit, is_space. intros H. char_class.
  apply orb_false_iff; split; apply andb_false_iff; right; apply Nat.leb_gt; lia.
Qed.

Lemma space_not_digit c : is_space c = true -> is_digit c = false.
Proof.
  intros H. destruct (is_digit c) eqn:E; [|reflexivity].
  rewrite (digit_not_space c E) in H. discriminate.
Qed.

Lemma space_not_alphanumeric c : is_space c = true -> is_alphanumeric c = false.
Proof.
  unfold is_space, is_alphanumeric. intros H. char_class;
  repeat (apply orb_false_iff; split); apply andb_false_iff;
  first [left; apply Nat.leb_gt; lia | right; apply Nat.leb_gt; lia].
Qed.

Lemma space_not_word c : is_space c = true -> is_word c = false.
Proof.
  intros H. unfold is_word. rewrite (space_not_alphanumeric c H).
  destruct (Ascii.eqb c "_") eqn:E; [|reflexivity].
  apply Ascii.eqb_eq in E. subst c. discriminate H.
Qed.

Lemma digit_alphanumeric c : is_digit c = true -> is_alphanumeric c = true.
Proof. unfold is_digit, is_alphanumeric. intros H. rewrite H. reflexivity. Qed.

Lemma digit_not_plus c : is_digit c = true -> Ascii.eqb c "+" = false.
Proof.
  intros H. destruct (Ascii.eqb c "+") eqn:E; [|reflexivity].
  apply Ascii.eqb_eq in E. subst c. discriminate H.
Qed.

Lemma digit_not_sign c : is_digit c = true -> Ascii.eqb c "-" = false /\ Ascii.eqb c "+" = false.
Proof.
  intros H. split; [|exact (digit_not_plus c H)].
  destruct (Ascii.eqb c "-") eqn:E; [|reflexivity].
  apply Ascii.eqb_eq in E. subst c. discriminate H.
Qed.

Lemma alphanumeric_not_space c : is_alphanumeric c = true -> is_space c = false.
Proof.
  intros H. destruct (is_space c) eqn:E; [|reflexivity].
  rewrite (space_not_alphanumeric c E) in H. discriminate.
Qed.

Lemma alphanumeric_not_sign c :
  is_alphanumeric c = true -> Ascii.eqb c "-" = false /\ Ascii.eqb c "+" = false.
Proof.
  intros H. split; [destruct (Ascii.eqb c "-") eqn:E|destruct (Ascii.eqb c "+") eqn:E];
  try reflexivity; apply Ascii.eqb_eq in E; subst c; discriminate H.
Qed.

Lemma newline_space : is_space newline = true.
Proof. reflexivity. Qed.

(** [split_sep] *)

Lemma split_sep_sep_free sep a s :
  all_chars (fun c => negb (Ascii.eqb c sep)) a = true ->
  split_sep sep (a ++ String sep s) = a :: split_sep sep s.
Proof.
  induction a as [|c a IH]; simpl; intros Ha.
  - rewrite Ascii.eqb_refl. reflexivity.
  - apply andb_true_iff in Ha as [Hc Ha]. apply negb_true_iff in Hc. rewrite Hc, (IH Ha).
    reflexivity.
Qed.

Lemma split_sep_single sep a :
  all_chars (fun c => negb (Ascii.eqb c sep)) a = true -> split_sep sep a = [a].
Proof.
  induction a as [|c a IH]; simpl; intros Ha; [reflexivity|].
  apply andb_true_iff in Ha as [Hc Ha]. apply negb_true_iff in Hc. rewrite Hc, (IH Ha).
  reflexivity.
Qed.

Lemma split_sep_concat sep ls :
  ls <> [] -> Forall (fun s => all_chars (fun c => negb (Ascii.eqb c sep)) s = true) ls ->
  split_sep sep (String.concat (String sep EmptyString) ls) = ls.
Proof.
  intros Hne Hall. induction Hall as [|x xs Hx Hxs IH]; [congruence|].
  destruct xs as [|y ys]; [apply split_sep_single; exact Hx|].
  change (String.concat (String sep EmptyString) (x :: y :: ys))
    with (x ++ String sep (String.concat (String sep EmptyString) (y :: ys)))%string.
  rewrite (split_sep_sep_free _ _ _ Hx), IH by discriminate. reflexivity.
Qed.

(** [split_ws] *)

Lemma split_ws_aux_spaces sp :
  all_chars is_space sp = true -> split_ws_aux sp = (EmptyString, []).
Proof.
  induction sp as [|c sp IH]; simpl; intros H; [reflexivity|].
  apply andb_true_iff in H as [Hc H]. rewrite (IH H), Hc. reflexivity.
Qed.

Lemma split_ws_spaces_app sp s :
  all_chars is_space sp = true -> split_ws (sp ++ s) = split_ws s.
Proof.
  induction sp as [|c sp IH]; simpl; intros H; [reflexivity|].
  apply andb_true_iff in H as [Hc H]. unfold split_ws in *. simpl.
  destruct (split_ws_aux (sp ++ s)) as [w ws] eqn:E. rewrite Hc. simpl.
  rewrite <- (IH H). reflexivity.
Qed.

Lemma split_ws_aux_space_app c s :
  is_space c = true -> split_ws_aux (String c s) = (EmptyString, split_ws s).
Proof.
  intros Hc. simpl. unfold split_ws. destruct (split_ws_aux s) as [w ws]. rewrite Hc.
  reflexivity.
Qed.

Lemma split_ws_aux_word_app w s :
  all_chars (fun c => negb (is_space c)) w = true ->
  split_ws_aux (w ++ s) = ((w ++ fst (split_ws_aux s))%string, snd (split_ws_aux s)).
Proof.
  induction w as [|c w IH]; simpl; intros H; [destruct (split_ws_aux s); reflexivity|].
  apply andb_true_iff in H as [Hc H]. apply negb_true_iff in Hc. rewrite (IH H), Hc.
  reflexivity.
Qed.

Lemma split_ws_word w sp :
  w <> EmptyString -> all_chars (fun c => negb (is_space c)) w = true ->
  all_chars is_space sp = true -> split_ws (w ++ sp) = [w].
Proof.
  intros Hne Hw Hsp. unfold split_ws. rewrite (split_ws_aux_word_app _ _ Hw),
    (split_ws_aux_spaces _ Hsp). simpl. rewrite str_app_nil.
  destruct (String.eqb w EmptyString) eqn:E; [apply String.eqb_eq in E; congruence|].
  reflexivity.
Qed.

Lemma split_ws_two_words n a sp :
  n <> EmptyString -> all_chars (fun c => negb (is_space c)) n = true ->
  a <> EmptyString -> all_chars (fun c => negb (is_space c)) a = true ->
  all_chars is_space sp = true ->
  split_ws (n ++ " " ++ a ++ sp) = [n; a].
Proof.
  intros Hn Hn' Ha Ha' Hsp. unfold split_ws at 1.
  change (" " ++ a ++ sp)%string with (String " " (a ++ sp)).
  rewrite (split_ws_aux_word_app _ _ Hn'), (split_ws_aux_space_app " " _ eq_refl).
  rewrite (split_ws_word _ _ Ha Ha' Hsp). simpl. rewrite str_app_nil.
  destruct (String.eqb n EmptyString) eqn:E; [apply String.eqb_eq in E; congruence|].
  reflexivity.
Qed.


Lemma split_plus_concat xs lead :
  xs <> [] ->
  Forall (fun x => all_chars (fun c => negb (Ascii.eqb c "+")) x = true) xs ->
  all_chars is_space lead = true ->
  Forall2 blank_padded (split_sep "+" (lead ++ String.concat " + " xs)) xs.
Proof.
  intros Hne Hall. revert lead. induction Hall as [|x xs Hx Hxs IH]; intros lead Hlead;
    [congruence|].
  assert (Hl : all_chars (fun c => negb (Ascii.eqb c "+")) lead = true).
  { apply (all_chars_impl is_space); [|exact Hlead].
    intros c Hc. destruct (Ascii.eqb c "+") eqn:E; [|reflexivity].
    apply Ascii.eqb_eq in E; subst c; discriminate Hc. }
  destruct xs as [|y ys].
  - simpl. rewrite split_sep_single.
    + constructor; [|constructor]. exists lead, EmptyString. rewrite str_app_nil. auto.
    + rewrite all_chars_app, Hx, Hl. reflexivity.
  - change (String.concat " + " (x :: y :: ys))
      with (x ++ " + " ++ String.concat " + " (y :: ys))%string.
    replace (lead ++ x ++ " + " ++ String.concat " + " (y :: ys))%string
      with ((lead ++ x ++ " ") ++ String "+" (" " ++ String.concat " + " (y :: ys)))%string
      by (rewrite !str_app_assoc; reflexivity).
    rewrite split_sep_sep_free.
    + constructor; [|apply IH; [discriminate|reflexivity]].
      exists lead, " "%string. auto.
    + rewrite !all_chars_app, Hx, Hl. reflexivity.
Qed.

(** [int()] and the dict *)

Lemma digits_tail_ok_digits s : all_chars is_digit s = true -> digits_tail_ok s = true.
Proof.
  induction s as [|c s IH]; simpl; intros H; [reflexivity|].
  apply andb_true_iff in H as [Hc H].
  destruct (Ascii.eqb c "_") eqn:E; [apply Ascii.eqb_eq in E; subst c; discriminate Hc|].
  rewrite Hc. exact (IH H).
Qed.

Lemma remove_underscores_digits s : all_chars is_digit s = true -> remove_underscores s = s.
Proof.
  induction s as [|c s IH]; simpl; intros H; [reflexivity|].
  apply andb_true_iff in H as [Hc H].
  destruct (Ascii.eqb c "_") eqn:E; [apply Ascii.eqb_eq in E; subst c; discriminate Hc|].
  rewrite (IH H). reflexivity.
Qed.

Lemma py_int_digits n :
  n <> EmptyString -> all_chars is_digit n = true -> py_int n = Some (digits_value n).
Proof.
  intros Hne H. unfold py_int. destruct n as [|c s]; [congruence|].
  simpl in H. apply andb_true_iff in H as [Hc H].
  destruct (digit_not_sign c Hc) as [E1 E2]. rewrite E1, E2. simpl.
  rewrite Hc, (digits_tail_ok_digits s H). simpl.
  destruct (Ascii.eqb c "_") eqn:E; [apply Ascii.eqb_eq in E; subst c; discriminate Hc|].
  rewrite (remove_underscores_digits s H). reflexivity.
Qed.

Lemma py_int_letter m :
  m <> EmptyString -> all_chars is_alphanumeric m = true -> head_fails is_digit m ->
  py_int m = None.
Proof.
  intros Hne H Hh. unfold py_int. destruct m as [|c s]; [congruence|].
  simpl in H, Hh. apply andb_true_iff in H as [Hc _].
  destruct (alphanumeric_not_sign c Hc) as [E1 E2]. rewrite E1, E2. simpl.
  rewrite Hh. reflexivity.
Qed.

Lemma dict_set_fresh k v d : ~ In k (map fst d) -> dict_set k v d = d ++ [(k, v)].
Proof.
  induction d as [|[k' v'] d IH]; simpl; intros H; [reflexivity|].
  destruct (String.eqb k k') eqn:E; [apply String.eqb_eq in E; subst; tauto|].
  rewrite IH by tauto. reflexivity.
Qed.

Lemma dict_set_keys k v d x : In x (map fst (dict_set k v d)) -> x = k \/ In x (map fst d).
Proof.
  induction d as [|[k' v'] d IH]; simpl; intros H.
  - destruct H as [H|[]]. left. congruence.
  - destruct (String.eqb k k') eqn:E; simpl in H.
    + apply String.eqb_eq in E. subst. tauto.
    + destruct H as [H|H]; [tauto|]. destruct (IH H); tauto.
Qed.

Lemma dict_set_nodup k v d : NoDup (map fst d) -> NoDup (map fst (dict_set k v d)).
Proof.
  induction d as [|[k' v'] d IH]; simpl; intros H.
  - repeat constructor. intros [].
  - inversion H as [|? ? Hnin Hnd]; subst.
    destruct (String.eqb k k') eqn:E; simpl; [constructor; assumption|].
    constructor; [|exact (IH Hnd)].
    intros Hin. destruct (dict_set_keys _ _ _ _ Hin) as [->|Hin'].
    + rewrite String.eqb_refl in E. discriminate.
    + tauto.
Qed.

Lemma parse_tokens_app s1 s2 d :
  parse_tokens (s1 ++ s2) d =
  match parse_tokens s1 d with inl e => inl e | inr d' => parse_tokens s2 d' end.
Proof.
  revert d. induction s1 as [|seg s1 IH]; intros d; simpl; [reflexivity|].
  destruct (split_ws seg) as [|w0 ws]; [reflexivity|].
  destruct (py_int w0); [|reflexivity]. destruct ws; [reflexivity|]. apply IH.
Qed.

Lemma parse_tokens_not_type_error segs d : parse_tokens segs d <> inl PyTypeError.
Proof.
  revert d. induction segs as [|seg segs IH]; intros d; simpl; [discriminate|].
  destruct (split_ws seg) as [|w0 ws]; [discriminate|].
  destruct (py_int w0); [|discriminate]. destruct ws; [discriminate|]. apply IH.
Qed.


Lemma digit_not_newline c : is_digit c = true -> negb (Ascii.eqb c newline) = true.
Proof.
  intros H. destruct (Ascii.eqb c newline) eqn:E; [|reflexivity].
  apply Ascii.eqb_eq in E. subst c. discriminate H.
Qed.

Lemma nonspace_not_newline c : negb (is_space c) = true -> negb (Ascii.eqb c newline) = true.
Proof.
  intros H. destruct (Ascii.eqb c newline) eqn:E; [|reflexivity].
  apply Ascii.eqb_eq in E. subst c. discriminate H.
Qed.

Lemma amount_ok_chars na :
  amount_ok na ->
  all_chars (fun c => negb (Ascii.eqb c "+")) (render_amount na) = true /\
  all_chars (fun c => negb (Ascii.eqb c newline)) (render_amount na) = true.
Proof.
  intros (_ & Hn & _ & Ha). unfold render_amount. rewrite !all_chars_app. simpl.
  split.
  - rewrite (all_chars_impl is_digit (fun c => negb (Ascii.eqb c "+")) _
               (fun c Hc => f_equal negb (digit_not_plus c Hc)) Hn).
    rewrite (all_chars_impl _ (fun c => negb (Ascii.eqb c "+")) _
               (fun c Hc => proj2 (proj1 (andb_true_iff _ _) Hc)) Ha).
    reflexivity.
  - rewrite (all_chars_impl is_digit _ _ digit_not_newline Hn).
    rewrite (all_chars_impl _ (fun c => negb (Ascii.eqb c newline)) _
               (fun c Hc => nonspace_not_newline c (proj1 (proj1 (andb_true_iff _ _) Hc))) Ha).
    reflexivity.
Qed.

Lemma split_ws_amount seg na :
  amount_ok na -> blank_padded seg (render_amount na) ->
  split_ws seg = [fst na; snd na].
Proof.
  intros (Hn & Hn' & Ha & Ha') (l & t & Hl & Ht & ->).
  rewrite (split_ws_spaces_app _ _ Hl). unfold render_amount.
  rewrite !str_app_assoc. apply split_ws_two_words; try assumption.
  - apply (all_chars_impl is_digit); [|exact Hn'].
    intros c Hc. rewrite (digit_not_space c Hc). reflexivity.
  - apply (all_chars_impl _ (fun c => negb (is_space c)) _
             (fun c Hc => proj1 (proj1 (andb_true_iff _ _) Hc)) Ha').
Qed.

Lemma parse_tokens_amounts segs am d :
  Forall2 blank_padded segs (map render_amount am) -> Forall amount_ok am ->
  parse_tokens segs d
  = inr (fold_left (fun d na => dict_set (snd na) (digits_value (fst na)) d) am d).
Proof.
  revert segs d. induction am as [|na am IH]; intros segs d H Hok; simpl in H.
  - inversion H; subst. reflexivity.
  - inversion H as [|seg ? segs' ? Hseg Hsegs]; subst.
    inversion Hok as [|? ? Hna Ham]; subst. simpl.
    rewrite (split_ws_amount _ _ Hna Hseg).
    destruct Hna as (Hn & Hn' & _). rewrite (py_int_digits _ Hn Hn').
    exact (IH _ _ Hsegs Ham).
Qed.

Lemma fold_dict_set_fresh am d :
  NoDup (map snd am) -> (forall x, In x (map snd am) -> ~ In x (map fst d)) ->
  fold_left (fun d na => dict_set (snd na) (digits_value (fst na)) d) am d
  = d ++ map (fun na => (snd na, digits_value (fst na))) am.
Proof.
  revert d. induction am as [|na am IH]; intros d Hnd Hfresh; simpl; [symmetry; apply app_nil_r|].
  inversion Hnd as [|? ? Hnin Hnd']; subst.
  rewrite dict_set_fresh by (apply Hfresh; left; reflexivity).
  rewrite IH; [rewrite <- app_assoc; reflexivity|exact Hnd'|].
  intros x Hx Hin. rewrite map_app, in_app_iff in Hin. simpl in Hin.
  destruct Hin as [Hin|[Heq|[]]].
  - exact (Hfresh x (or_intror Hx) Hin).
  - subst x. exact (Hnin Hx).
Qed.

Lemma concat_cons_prefix sep x xs : exists t, String.concat sep (x :: xs) = (x ++ t)%string.
Proof.
  destruct xs as [|y ys]; [exists EmptyString; symmetry; apply str_app_nil|].
  exists (sep ++ String.concat sep (y :: ys))%string. reflexivity.
Qed.

Lemma concat_app_last sep xs m :
  xs <> [] -> String.concat sep (xs ++ [m]) = (String.concat sep xs ++ sep ++ m)%string.
Proof.
  induction xs as [|x xs IH]; intros Hne; [congruence|].
  destruct xs as [|y ys]; [reflexivity|].
  change ((x :: y :: ys) ++ [m]) with (x :: ((y :: ys) ++ [m])).
  change (String.concat sep (x :: (y :: ys) ++ [m]))
    with (x ++ sep ++ String.concat sep ((y :: ys) ++ [m]))%string.
  rewrite IH by discriminate.
  change (String.concat sep (x :: y :: ys))
    with (x ++ sep ++ String.concat sep (y :: ys))%string.
  rewrite !str_app_assoc. reflexivity.
Qed.

Lemma span_prefix p a s :
  all_chars p a = true -> span p (a ++ s) = ((a ++ fst (span p s))%string, snd (span p s)).
Proof.
  induction a as [|c a IH]; simpl; intros H; [destruct (span p s); reflexivity|].
  apply andb_true_iff in H as [Hc H]. rewrite Hc, (IH H). reflexivity.
Qed.

Lemma span_all p a : all_chars p a = true -> span p a = (a, EmptyString).
Proof.
  intros H. rewrite <- (str_app_nil a) at 1. rewrite (span_app p a EmptyString H I).
  reflexivity.
Qed.

Lemma truthy_nonempty s : s <> EmptyString -> truthy s = true.
Proof.
  intros H. unfold truthy. destruct (String.eqb s EmptyString) eqn:E; [|reflexivity].
  apply String.eqb_eq in E. congruence.
Qed.

Lemma utxo_re_match_row h ix amounts :
  h <> EmptyString -> all_chars is_word h = true ->
  ix <> EmptyString -> all_chars is_digit ix = true ->
  head_fails is_space amounts ->
  all_chars (fun c => negb (Ascii.eqb c newline)) amounts = true ->
  utxo_re_match (h ++ "     " ++ ix ++ "        " ++ amounts) = Some (h, ix, amounts).
Proof.
  intros Hh Hh' Hi Hi' Ha Ha'. unfold utxo_re_match.
  rewrite (span_app is_word h) by (exact Hh' || reflexivity).
  rewrite (span_app is_space "     ").
  2: reflexivity.
  2: { destruct ix as [|c ix]; [congruence|]. simpl in Hi' |- *.
       apply andb_true_iff in Hi' as [Hc _]. exact (digit_not_space c Hc). }
  rewrite (span_app is_digit ix) by (exact Hi' || reflexivity).
  rewrite (span_app is_space "        ") by (reflexivity || exact Ha).
  rewrite (truthy_nonempty h Hh), (truthy_nonempty ix Hi).
  change (truthy "     ") with true. change (truthy "        ") with true.
  cbv beta iota zeta.
  rewrite (span_all _ amounts Ha'). reflexivity.
Qed.

Lemma row_amounts_head am :
  am <> [] -> Forall amount_ok am ->
  head_fails is_space (String.concat " + " (map render_amount am)).
Proof.
  intros Hne Hok. destruct am as [|[n a] am]; [congruence|].
  inversion Hok as [|? ? (Hn & Hn' & _) _]; subst. simpl map.
  destruct (concat_cons_prefix " + " (render_amount (n, a)) (map render_amount am)) as [t ->].
  unfold render_amount. simpl fst in *. simpl snd in *. destruct n as [|c n]; [congruence|].
  simpl in Hn' |- *. apply andb_true_iff in Hn' as [Hc _]. exact (digit_not_space c Hc).
Qed.

Lemma well_formed_row_amounts h ix am :
  well_formed_row (h, ix, am) -> Forall amount_ok am.
Proof.
  intros (_ & _ & _ & _ & _ & _ & H). eapply Forall_impl; [|exact H].
  intros na Hna. exact Hna.
Qed.

Lemma parse_utxo_line_row row :
  well_formed_row row -> parse_utxo_line (render_row row) = inr (row_utxo row).
Proof.
  destruct row as [[h ix] am]. intros Hwf.
  pose proof (well_formed_row_amounts _ _ _ Hwf) as Hok.
  destruct Hwf as (Hh & Hh' & Hi & Hi' & Hne & Hnd & _).
  unfold parse_utxo_line, render_row, row_utxo.
  assert (Hchars := Forall_impl _ amount_ok_chars Hok).
  rewrite utxo_re_match_row; try assumption.
  - assert (Hsegs : Forall2 blank_padded
                      (split_sep "+" (EmptyString ++ String.concat " + " (map render_amount am)))
                      (map render_amount am)).
    { apply split_plus_concat; [destruct am; simpl; congruence| |reflexivity].
      rewrite Forall_map. eapply Forall_impl; [|exact Hchars]. intros na H. exact (proj1 H). }
    simpl in Hsegs. rewrite (parse_tokens_amounts _ _ _ Hsegs Hok).
    rewrite fold_dict_set_fresh; [reflexivity|exact Hnd|intros x _ []].
  - exact (row_amounts_head am Hne Hok).
  - apply all_chars_concat; [reflexivity|]. rewrite Forall_map.
    eapply Forall_impl; [|exact Hchars]. intros na H. exact (proj2 H).
Qed.

Lemma render_row_newline_free row :
  well_formed_row row ->
  all_chars (fun c => negb (Ascii.eqb c newline)) (render_row row) = true.
Proof.
  destruct row as [[h ix] am]. intros Hwf.
  pose proof (well_formed_row_amounts _ _ _ Hwf) as Hok.
  destruct Hwf as (_ & Hh' & _ & Hi' & _).
  unfold render_row. rewrite !all_chars_app.
  rewrite (all_chars_impl is_digit _ _ digit_not_newline Hi').
  rewrite (all_chars_impl is_word (fun c => negb (Ascii.eqb c newline))); [|intros c Hc|exact Hh'].
  - simpl. apply all_chars_concat; [reflexivity|]. rewrite Forall_map.
    eapply Forall_impl; [|exact Hok]. intros na H. exact (proj2 (amount_ok_chars na H)).
  - destruct (Ascii.eqb c newline) eqn:E; [|reflexivity].
    apply Ascii.eqb_eq in E. subst c. discriminate Hc.
Qed.

Lemma parse_utxo_lines_rows rows :
  Forall well_formed_row rows ->
  parse_utxo_lines (map render_row rows) = inr (map row_utxo rows).
Proof.
  induction 1 as [|row rows Hrow _ IH]; simpl; [reflexivity|].
  rewrite (parse_utxo_line_row _ Hrow), IH. reflexivity.
Qed.

(** X6: parsing the output of [query utxo] inverts its rendering: for a
    header and a rule line without newlines and well-formed rows (a word
    hash, a digit index, amounts [n asset] with distinct assets), the
    parsed UTxOs are the rows with their amounts turned into integers. *)
Theorem utxos_of_response_round_trip header rule rows :
  all_chars (fun c => negb (Ascii.eqb c newline)) header = true ->
  all_chars (fun c => negb (Ascii.eqb c newline)) rule = true ->
  Forall well_formed_row rows ->
  utxos_of_response (render_table header rule (map render_row rows)) = inr (map row_utxo rows).
Proof.
  intros Hh Hr Hrows. unfold utxos_of_response, render_table.
  rewrite split_sep_concat.
  - exact (parse_utxo_lines_rows _ Hrows).
  - discriminate.
  - constructor; [exact Hh|]. constructor; [exact Hr|]. rewrite Forall_map.
    eapply Forall_impl; [|exact Hrows]. exact render_row_newline_free.
Qed.

Lemma parse_utxo_line_type_error_match line :
  parse_utxo_line line = inl PyTypeError <-> utxo_re_match line = None.
Proof.
  unfold parse_utxo_line. destruct (utxo_re_match line) as [[[h ix] am]|]; [|tauto].
  split; [|discriminate].
  destruct (parse_tokens (split_sep "+" am) []) as [e|toks] eqn:E; [|discriminate].
  intros H. injection H as ->. exfalso. exact (parse_tokens_not_type_error _ _ E).
Qed.

(** X9: a line of the [query utxo] table raises [TypeError] exactly when
    it does not start with a word hash, blanks, a digit index and blanks
    (the regular expression does not match). *)
Theorem parse_utxo_line_type_error line :
  parse_utxo_line line = inl PyTypeError <->
  ~ exists h sp1 ix sp2 rest,
      line = (h ++ sp1 ++ ix ++ sp2 ++ rest)%string /\
      h <> EmptyString /\ all_chars is_word h = true /\
      sp1 <> EmptyString /\ all_chars is_space sp1 = true /\
      ix <> EmptyString /\ all_chars is_digit ix = true /\
      sp2 <> EmptyString /\ all_chars is_space sp2 = true.
Proof.
  rewrite parse_utxo_line_type_error_match. split.
  - intros Hn (h & sp1 & ix & sp2 & rest & -> & Hh & Hh' & Hs & Hs' & Hi & Hi' & Ht & Ht').
    unfold utxo_re_match in Hn.
    rewrite (span_app is_word h) in Hn; [|exact Hh'|].
    2: { destruct sp1 as [|c sp1]; [congruence|]. simpl in Hs' |- *.
         apply andb_true_iff in Hs' as [Hc _]. exact (space_not_word c Hc). }
    rewrite (span_app is_space sp1) in Hn; [|exact Hs'|].
    2: { destruct ix as [|c ix]; [congruence|]. simpl in Hi' |- *.
         apply andb_true_iff in Hi' as [Hc _]. exact (digit_not_space c Hc). }
    rewrite (span_app is_digit ix) in Hn; [|exact Hi'|].
    2: { destruct sp2 as [|c sp2]; [congruence|]. simpl in Ht' |- *.
         apply andb_true_iff in Ht' as [Hc _]. exact (space_not_digit c Hc). }
    rewrite (span_prefix is_space sp2 rest Ht') in Hn.
    rewrite (truthy_nonempty h Hh), (truthy_nonempty sp1 Hs), (truthy_nonempty ix Hi) in Hn.
    rewrite truthy_nonempty in Hn; [discriminate|].
    destruct sp2; [congruence|discriminate].
  - intros Hnot. destruct (utxo_re_match line) eqn:E; [exfalso|reflexivity].
    unfold utxo_re_match in E.
    destruct (span_spec is_word line) as (Hs1 & Hw1 & _).
    destruct (span is_word line) as [h r1]; simpl in Hs1, Hw1.
    destruct (span_spec is_space r1) as (Hs2 & Hw2 & _).
    destruct (span is_space r1) as [sp1 r2]; simpl in Hs2, Hw2.
    destruct (span_spec is_digit r2) as (Hs3 & Hw3 & _).
    destruct (span is_digit r2) as [ix r3]; simpl in Hs3, Hw3.
    destruct (span_spec is_space r3) as (Hs4 & Hw4 & _).
    destruct (span is_space r3) as [sp2 r4]; simpl in Hs4, Hw4.
    destruct (truthy h && truthy sp1 && truthy ix && truthy sp2) eqn:Et; [|discriminate].
    apply Hnot. exists h, sp1, ix, sp2, r4.
    apply andb_true_iff in Et as [Et E4]. apply andb_true_iff in Et as [Et E3].
    apply andb_true_iff in Et as [E1 E2]. unfold truthy in E1, E2, E3, E4.
    apply negb_true_iff in E1, E2, E3, E4.
    repeat split; try assumption.
    + rewrite Hs1, Hs2, Hs3, Hs4. reflexivity.
    + intros ->. discriminate E1.
    + intros ->. discriminate E2.
    + intros ->. discriminate E3.
    + intros ->. discriminate E4.
Qed.

Lemma split_ws_blank_word seg m :
  all_chars is_alphanumeric m = true -> blank_padded seg m ->
  split_ws seg = if String.eqb m EmptyString then [] else [m].
Proof.
  intros Hm (l & t & Hl & Ht & ->). rewrite (split_ws_spaces_app _ _ Hl).
  destruct (String.eqb m EmptyString) eqn:E.
  - apply String.eqb_eq in E. subst m. simpl.
    rewrite <- (str_app_nil t), (split_ws_spaces_app _ _ Ht). reflexivity.
  - apply split_ws_word; [intros ->; discriminate E| |exact Ht].
    apply (all_chars_impl is_alphanumeric); [|exact Hm].
    intros c Hc. rewrite (alphanumeric_not_space c Hc). reflexivity.
Qed.

(** X10: a well-formed row followed by [" + "] and an alphanumeric amount
    that does not start with a digit (such as a datum marker) raises
    [ValueError], or [IndexError] when the amount is empty. *)
Theorem parse_utxo_line_bad_amount row m :
  well_formed_row row -> all_chars is_alphanumeric m = true -> head_fails is_digit m ->
  parse_utxo_line (render_row row ++ " + " ++ m)
  = inl (if String.eqb m EmptyString then PyIndexError else PyValueError).
Proof.
  destruct row as [[h ix] am]. intros Hwf Hm Hmd.
  pose proof (well_formed_row_amounts _ _ _ Hwf) as Hok.
  destruct Hwf as (Hh & Hh' & Hi & Hi' & Hne & Hnd & _).
  assert (Hchars := Forall_impl _ amount_ok_chars Hok).
  assert (Hm_plus : all_chars (fun c => negb (Ascii.eqb c "+")) m = true).
  { apply (all_chars_impl is_alphanumeric); [|exact Hm].
    intros c Hc. rewrite (proj2 (alphanumeric_not_sign c Hc)). reflexivity. }
  assert (Hm_nl : all_chars (fun c => negb (Ascii.eqb c newline)) m = true).
  { apply (all_chars_impl is_alphanumeric); [|exact Hm].
    intros c Hc. apply nonspace_not_newline. rewrite (alphanumeric_not_space c Hc).
    reflexivity. }
  assert (Hmap_ne : map render_amount am <> []) by (destruct am; simpl; congruence).
  unfold parse_utxo_line, render_row.
  rewrite !str_app_assoc.
  rewrite <- (concat_app_last _ _ _ Hmap_ne).
  rewrite utxo_re_match_row; try assumption.
  - assert (Hsegs : Forall2 blank_padded
                      (split_sep "+" (EmptyString ++
                         String.concat " + " (map render_amount am ++ [m])))
                      (map render_amount am ++ [m])).
    { apply split_plus_concat; [destruct am; simpl; congruence| |reflexivity].
      apply Forall_app. split; [|constructor; [exact Hm_plus|constructor]].
      rewrite Forall_map. eapply Forall_impl; [|exact Hchars]. intros na H. exact (proj1 H). }
    simpl in Hsegs. apply Forall2_app_inv_r in Hsegs as (s1 & s2 & H1 & H2 & ->).
    inversion H2 as [|seg ? ? ? Hseg Hnil]; subst. inversion Hnil; subst.
    rewrite parse_tokens_app, (parse_tokens_amounts _ _ _ H1 Hok). simpl.
    rewrite (split_ws_blank_word _ _ Hm Hseg).
    destruct (String.eqb m EmptyString) eqn:E; [reflexivity|].
    rewrite py_int_letter; [reflexivity| |exact Hm|exact Hmd].
    intros ->. discriminate E.
  - destruct am as [|[n a] am]; [congruence|].
    inversion Hok as [|? ? (Hn & Hn' & _) _]; subst. simpl map. rewrite <- app_comm_cons.
    destruct (concat_cons_prefix " + " (render_amount (n, a))
                (map render_amount am ++ [m])) as [t ->].
    unfold render_amount. simpl fst in *. simpl snd in *. destruct n as [|c n]; [congruence|].
    simpl in Hn' |- *. apply andb_true_iff in Hn' as [Hc _]. exact (digit_not_space c Hc).
  - apply all_chars_concat; [reflexivity|]. apply Forall_app.
    split; [|constructor; [exact Hm_nl|constructor]].
    rewrite Forall_map. eapply Forall_impl; [|exact Hchars]. intros na H. exact (proj2 H).
Qed.

(** ** Conservation of lovelace and tokens *)

Lemma wallet_utxos_ok' env w us : fst (wallet_utxos env w) = Ok us -> us = env_utxos env.
Proof.
  unfold wallet_utxos, cli_run, bind, ret.
  destruct (env_fails env _); simpl; congruence.
Qed.

Lemma wallet_lovelace_utxos_ok' env w us :
  fst (wallet_lovelace_utxos env w) = Ok us ->
  us = filter_utxos (env_utxos env) (Some lovelace_unit) None.
Proof.
  unfold wallet_lovelace_utxos, wallet_utxos, cli_run, bind, ret.
  destruct (env_fails env _); simpl; congruence.
Qed.

Lemma balance_ok env w d us :
  fst (balance env w) = Ok (d, us) -> d = balance_tokens (env_utxos env) /\ us = env_utxos env.
Proof.
  unfold balance, wallet_utxos, cli_run, bind, ret.
  destruct (env_fails env _); simpl; [discriminate|]. intros H. injection H as <- <-. auto.
Qed.

Lemma lift_key_ok {A} k (o : option A) a : fst (lift_key k o) = Ok a -> o = Some a.
Proof. destruct o; simpl; congruence. Qed.

Lemma get_token_ok u k x : fst (get_token u k) = Ok x -> key k u = x.
Proof.
  unfold get_token, key, qty. intros H. apply lift_key_ok in H. rewrite H. reflexivity.
Qed.

Lemma bind_fst_ok {A B} (m : M A) (f : A -> M B) b :
  fst (bind m f) = Ok b -> exists a, fst m = Ok a /\ fst (f a) = Ok b.
Proof.
  destruct m as [[a|e] w]; simpl; [|discriminate].
  destruct (f a) as [r w'] eqn:E. simpl. intros ->. exists a. rewrite E. auto.
Qed.

Lemma sum_Z_app l1 l2 : sum_Z (l1 ++ l2) = sum_Z l1 + sum_Z l2.
Proof. unfold sum_Z. rewrite fold_right_app. induction l1; simpl; lia. Qed.

Lemma take_tokens_ok a q t l us sel t' l' :
  fst (take_tokens a q t l us) = Ok (sel, t', l') ->
  (exists rest, us = sel ++ rest) /\ l' = l + sum_Z (map (key lovelace_unit) sel).
Proof.
  revert t l sel t' l'. induction us as [|u us IH]; intros t l sel t' l' H; simpl in H.
  - injection H as <- <- <-. split; [exists []; reflexivity|unfold sum_Z; simpl; lia].
  - apply bind_fst_ok in H as (x & Hx & H). apply bind_fst_ok in H as (y & Hy & H).
    apply get_token_ok in Hy.
    destruct (q <=? t + x).
    + simpl in H. injection H as <- <- <-.
      split; [exists us; reflexivity|unfold sum_Z; simpl; lia].
    + apply bind_fst_ok in H as ([[sel' t''] l''] & Hr & H). simpl in H.
      injection H as <- <- <-. destruct (IH _ _ _ _ _ Hr) as ([rest ->] & ->).
      split; [exists rest; reflexivity|]. unfold sum_Z. simpl. fold (sum_Z (map (key lovelace_unit) sel')). lia.
Qed.

Lemma sum_lovelace_ok us s r :
  fst (sum_lovelace us s) = Ok r -> r = s + sum_Z (map (key lovelace_unit) us).
Proof.
  revert s. induction us as [|u us IH]; intros s H; simpl in H.
  - injection H as <-. unfold sum_Z. simpl. lia.
  - apply bind_fst_ok in H as (x & Hx & H). apply get_token_ok in Hx.
    rewrite (IH _ H). unfold sum_Z. simpl. lia.
Qed.

Lemma token_outputs_sum env addr toks r outs r' :
  token_outputs env addr toks r = (outs, r') -> sum_Z (map out_lovelace outs) + r' = r.
Proof.
  revert r outs. induction toks as [|[k c] toks IH]; intros r outs H; simpl in H.
  - injection H as <- <-. reflexivity.
  - destruct (token_outputs env addr toks (r - min_dust env [(c, k)])) as [o rr] eqn:E.
    injection H as <- ->. specialize (IH _ _ E). unfold sum_Z in *. simpl. lia.
Qed.

Lemma fold_left_sub vs s : fold_left (fun s v => s - v) vs s = s - sum_Z vs.
Proof.
  revert s. induction vs as [|v vs IH]; intros s; simpl; [unfold sum_Z; simpl; lia|].
  rewrite IH. unfold sum_Z. simpl. lia.
Qed.

Lemma qty_balance_tokens k us :
  Forall (fun u => NoDup (map fst (Tokens u))) us ->
  qty k (balance_tokens us) = sum_Z (map (key k) us).
Proof.
  intros Hnd. unfold qty, balance_tokens. rewrite (lookup_balance_from k us [] Hnd).
  destruct (existsb (holds k) us) eqn:E; [reflexivity|].
  rewrite sum_key_absent by exact E. reflexivity.
Qed.

Lemma in_filter_utxos_include x us t : In x (filter_utxos us (Some t) None) -> In x us.
Proof. rewrite filter_utxos_include. intros H. apply filter_In in H. exact (proj1 H). Qed.

Lemma in_sorted_filter x us t o sorted :
  sort_utxos (filter_utxos us (Some t) None) t o = Some sorted -> In x sorted -> In x us.
Proof.
  intros Hs Hx. destruct (sort_utxos_spec _ _ _ _ Hs) as [Hp _].
  apply (in_filter_utxos_include x us t). exact (Permutation_in _ Hp Hx).
Qed.

(** The common tail of the use cases, with the outputs it leaves. *)
Lemma finalize_outputs env tx0 mint w pw ih (o : Z -> TxOut) tx tr :
  bind (generate_draft env tx0 mint) (fun transaction =>
    bind (calculate_min_fee env transaction) (fun tx_fee =>
    bind (set_last (tx_outputs transaction) (o tx_fee)) (fun outputs =>
    bind (submit env (set_outputs transaction outputs) w tx_fee pw ih mint) (fun transaction =>
    ret (save transaction))))) = (Ok tx, tr) ->
  exists init last fee,
    tx_outputs tx0 = init ++ [last] /\ tx_outputs tx = init ++ [o fee] /\
    tx_inputs tx = tx_inputs tx0 /\ final_fee tr = Some fee.
Proof.
  intros H. apply bind_generate_draft in H as (tr2 & H & Hb). cbv beta in H.
  peel H. rename a into fee. peel H. rename a into outputs.
  unfold set_last in Hm0. simpl in Hm0.
  destruct (replace_last (tx_outputs tx0) (o fee)) as [outs|] eqn:Er; [|discriminate].
  injection Hm0 as <-.
  destruct (replace_last_spec _ _ _ Er) as (init & last & Hl & ->).
  apply bind_submit in H as (ttl & tr4 & H & Hb3). unfold ret in H. injection H as <- <-.
  exists init, last, fee. repeat split; [exact Hl|].
  unfold final_fee. rewrite Hb, Hb0, Hb1, Hb3. reflexivity.
Qed.

Ltac fee_from Hf :=
  unfold final_fee in *;
  repeat match goal with Hb : build_raws _ = build_raws _ |- _ => rewrite Hb; clear Hb end;
  exact Hf.

(** X11: in each finalised wallet use case (send_lovelace, send_tokens,
    consolidate_utxos, partition_lovelace, mint_tokens), the inputs spent
    are UTxOs of the wallet (of the given payment UTxO for mint_tokens),
    and the lovelace of the outputs plus the fee of the final body equals
    the lovelace of the inputs. *)
Theorem use_cases_conserve_lovelace env w :
  (forall quantity to_address pw tx tr,
     truthy pw = true ->
     send_lovelace env w quantity to_address (Some pw) = (Ok tx, tr) ->
     lovelace_conserved (env_utxos env) tr tx) /\
  (forall asset_id quantity to_address pw tx tr,
     truthy pw = true ->
     send_tokens env w asset_id quantity to_address (Some pw) = (Ok tx, tr) ->
     lovelace_conserved (env_utxos env) tr tx) /\
  (forall pw tx tr,
     Forall (fun u => NoDup (map fst (Tokens u))) (env_utxos env) ->
     truthy pw = true ->
     consolidate_utxos env w (Some pw) = (Ok tx, tr) ->
     lovelace_conserved (env_utxos env) tr tx) /\
  (forall values pw tx tr,
     partition_lovelace env w values (Some pw) = (Ok tx, tr) ->
     lovelace_conserved (env_utxos env) tr tx) /\
  (forall policy quantity to_address sp mp asset_name metadata payment_utxo change_address tx tr,
     mint_tokens env w policy quantity to_address (Some sp) (Some mp) asset_name metadata
       payment_utxo change_address = (Ok tx, tr) ->
     lovelace_conserved (match payment_utxo with Some u => [u] | None => env_utxos env end)
       tr tx).
Proof.
  repeat split.
  - intros q to pw tx tr Ht H. unfold send_lovelace in H.
    peel H. peel H. peel H. peel H. destruct a2 as [sel total].
    rewrite Ht in H. cbv beta iota zeta in H.
    apply finalize_outputs in H as (init & last & fee & Hl & Ho & Hi & Hf).
    simpl in Hl. change [?x; ?y] with ([x] ++ [y]) in Hl.
    apply app_inj_tail in Hl as [<- _].
    apply lift_key_ok in Hm1. apply lift_key_ok in Hm2.
    apply wallet_lovelace_utxos_ok' in Hm0. subst a0.
    destruct (accumulate_spec _ _ _ _ _ _ Hm2) as (rest & Hsr & Htot & _).
    exists sel, fee. repeat split.
    + intros x Hx. apply (in_sorted_filter x (env_utxos env) lovelace_unit "desc" a1 Hm1).
      rewrite Hsr. apply in_or_app. left. exact Hx.
    + rewrite Hi. reflexivity.
    + fee_from Hf.
    + rewrite Ho. unfold sum_Z in *. simpl in *. lia.
  - intros asset q to pw tx tr Ht H. unfold send_tokens in H.
    peel H. peel H. peel H. peel H.
    destruct a1 as [|lu lus]; cbv beta iota zeta in H; [unfold raise in H; discriminate H|].
    peel H. peel H.
    match goal with r : (list Utxo * Z * Z)%type |- _ => destruct r as [[tin tt] tl] end.
    destruct (tt <? q); cbv beta iota zeta in H; [unfold raise in H; discriminate H|].
    apply wallet_utxos_ok' in Hm. apply wallet_lovelace_utxos_ok' in Hm0. subst a a0.
    apply lift_key_ok in Hm1. apply lift_key_ok in Hm2. apply get_token_ok in Hm3.
    destruct (take_tokens_ok _ _ _ _ _ _ _ _ Hm4) as ([rest Htin] & Htl).
    assert (Hincl : incl (lu :: tin) (env_utxos env)).
    { intros x [<-|Hx].
      - apply (in_sorted_filter lu (env_utxos env) lovelace_unit "desc" _ Hm1). left. reflexivity.
      - apply (in_sorted_filter x (env_utxos env) asset "desc" a2 Hm2).
        rewrite Htin. apply in_or_app. left. exact Hx. }
    destruct (0 <? tt - q); rewrite Ht in H; cbv beta iota zeta in H;
      apply finalize_outputs in H as (init & last & fee & Hl & Ho & Hi & Hf);
      apply (f_equal (@removelast _)) in Hl; rewrite removelast_last in Hl;
      simpl in Hl; subst init;
      exists (lu :: tin), fee; (repeat split; [exact Hincl|rewrite Hi; reflexivity|fee_from Hf|]);
      rewrite Ho, Htl, <- Hm3; unfold sum_Z in *; simpl in *; lia.
  - intros pw tx tr Hnd Ht H. unfold consolidate_utxos in H.
    peel H. destruct a as [all_tokens utxos]. cbv beta iota zeta in H.
    destruct (token_outputs env (payment_address w) (dict_del lovelace_unit all_tokens)
                (qty lovelace_unit all_tokens)) as [outs rem] eqn:Eto.
    rewrite Ht in H. cbv beta iota zeta in H.
    apply finalize_outputs in H as (init & last & fee & Hl & Ho & Hi & Hf).
    simpl in Hl. apply app_inj_tail in Hl as [<- _].
    destruct (balance_ok _ _ _ _ Hm) as [-> ->].
    exists (env_utxos env), fee. repeat split.
    + intros x Hx. exact Hx.
    + rewrite Hi. reflexivity.
    + fee_from Hf.
    + rewrite Ho, map_app, sum_Z_app. apply token_outputs_sum in Eto.
      rewrite <- qty_balance_tokens by exact Hnd. unfold sum_Z in *. simpl in *. lia.
  - intros vs pw tx tr H. unfold partition_lovelace in H.
    peel H. peel H. cbv beta iota zeta in H.
    apply finalize_outputs in H as (init & last & fee & Hl & Ho & Hi & Hf).
    simpl in Hl. apply app_inj_tail in Hl as [<- _].
    apply wallet_lovelace_utxos_ok' in Hm. apply sum_lovelace_ok in Hm0. subst a.
    exists (filter_utxos (env_utxos env) (Some lovelace_unit) None), fee. repeat split.
    + intros x Hx. exact (in_filter_utxos_include _ _ _ Hx).
    + rewrite Hi. reflexivity.
    + fee_from Hf.
    + rewrite Ho, map_app, sum_Z_app, map_map, fold_left_sub, Hm0. simpl.
      rewrite map_id. lia.
  - intros policy q to sp mp an md pu ca tx tr H. unfold mint_tokens in H.
    peel H. peel H. cbv beta iota zeta in H.
    apply finalize_outputs in H as (init & last & fee & Hl & Ho & Hi & Hf).
    simpl in Hl. change [?x; ?y] with ([x] ++ [y]) in Hl.
    apply app_inj_tail in Hl as [<- _].
    apply get_token_ok in Hm0.
    exists [a], fee. repeat split.
    + intros x [<-|[]]. destruct pu as [u|].
      * simpl in Hm. injection Hm as ->. left. reflexivity.
      * apply bind_fst_ok in Hm as (ls & Hls & Hm). apply bind_fst_ok in Hm as (ss & Hss & Hm).
        apply wallet_lovelace_utxos_ok' in Hls. apply lift_key_ok in Hss. subst ls.
        destruct ss as [|u ss]; simpl in Hm; [discriminate|]. injection Hm as ->.
        apply (in_sorted_filter a (env_utxos env) lovelace_unit "desc" _ Hss). left. reflexivity.
    + rewrite Hi. reflexivity.
    + fee_from Hf.
    + rewrite Ho. unfold sum_Z. simpl. lia.
Qed.

Lemma in_dict_add_keys x k v d : In x (map fst (dict_add k v d)) -> x = k \/ In x (map fst d).
Proof.
  induction d as [|[k' v'] d IH]; simpl.
  - intros [<-|[]]. left. reflexivity.
  - destruct (String.eqb k k'); simpl; intros [<-|H]; auto. destruct (IH H); auto.
Qed.

Lemma dict_add_nodup k v d : NoDup (map fst d) -> NoDup (map fst (dict_add k v d)).
Proof.
  induction d as [|[k' v'] d IH]; simpl; intros Hnd.
  - constructor; [intros []|constructor].
  - inversion Hnd as [|? ? Hnin Hnd']; subst.
    destruct (String.eqb k k') eqn:E; simpl; constructor; auto.
    intros Hin. apply in_dict_add_keys in Hin as [->|Hin]; [|contradiction].
    rewrite String.eqb_refl in E. discriminate.
Qed.

Lemma balance_tokens_nodup us : NoDup (map fst (balance_tokens us)).
Proof.
  unfold balance_tokens. assert (H : forall acc, NoDup (map fst acc) ->
    NoDup (map fst (fold_left (fun acc u => add_utxo_tokens acc (Tokens u)) us acc))).
  { induction us as [|u us IH]; intros acc Hacc; simpl; [exact Hacc|]. apply IH.
    unfold add_utxo_tokens. generalize (Tokens u). intros toks. revert acc Hacc.
    induction toks as [|kv toks IHt]; intros acc Hacc; simpl; [exact Hacc|].
    apply IHt. apply dict_add_nodup. exact Hacc. }
  apply H. constructor.
Qed.

Lemma in_dict_del_keys x k d : In x (map fst (dict_del k d)) -> In x (map fst d).
Proof.
  induction d as [|[k' v] d IH]; simpl; [auto|].
  destruct (String.eqb k k'); simpl; intros H; [right; exact H|]. destruct H; auto.
Qed.

Lemma dict_del_nodup k d : NoDup (map fst d) -> NoDup (map fst (dict_del k d)).
Proof.
  induction d as [|[k' v] d IH]; simpl; intros Hnd; [exact Hnd|].
  inversion Hnd as [|? ? Hnin Hnd']; subst.
  destruct (String.eqb k k'); simpl; [exact Hnd'|].
  constructor; auto. intros Hin. apply in_dict_del_keys in Hin. contradiction.
Qed.

Lemma qty_dict_del a k d : a <> k -> qty a (dict_del k d) = qty a d.
Proof.
  intros Hne. induction d as [|[k' v] d IH]; simpl; [reflexivity|].
  destruct (String.eqb k k') eqn:E.
  - apply String.eqb_eq in E. subst k'. rewrite qty_cons.
    rewrite (proj2 (String.eqb_neq a k) Hne). reflexivity.
  - rewrite !qty_cons, IH. reflexivity.
Qed.

Lemma qty_absent a d : ~ In a (map fst d) -> qty a d = 0.
Proof.
  intros H. apply not_in_qty. destruct (in_asset_types a (map fst d)) eqn:E; [|reflexivity].
  apply in_asset_types_spec in E. contradiction.
Qed.

Lemma outputs_qty_cons a o outs :
  outputs_qty a (o :: outs) =
  sum_Z (map (fun qa => if String.eqb (snd qa) a then fst qa else 0) (out_bundle o))
  + outputs_qty a outs.
Proof. reflexivity. Qed.

Lemma outputs_qty_app a l1 l2 : outputs_qty a (l1 ++ l2) = outputs_qty a l1 + outputs_qty a l2.
Proof. unfold outputs_qty. rewrite map_app, sum_Z_app. reflexivity. Qed.

Lemma outputs_qty_token_outputs env addr a d r :
  NoDup (map fst d) -> outputs_qty a (fst (token_outputs env addr d r)) = qty a d.
Proof.
  revert r. induction d as [|[k c] d IH]; intros r Hnd; simpl; [reflexivity|].
  inversion Hnd as [|? ? Hnin Hnd']; subst.
  specialize (IH (r - min_dust env [(c, k)]) Hnd').
  destruct (token_outputs env addr d (r - min_dust env [(c, k)])) as [outs rem].
  simpl in *. rewrite outputs_qty_cons, IH, qty_cons. simpl.
  rewrite (String.eqb_sym k a). destruct (String.eqb a k) eqn:E.
  - apply String.eqb_eq in E. subst k. rewrite (qty_absent _ _ Hnin). unfold sum_Z. simpl. lia.
  - unfold sum_Z. simpl. lia.
Qed.

(** X12: a finalised [consolidate_utxos] spends all the wallet's UTxOs and
    its outputs carry, for every asset other than lovelace, exactly the
    total quantity held by those UTxOs. *)
Theorem consolidate_utxos_conserves_tokens env w pw tx tr :
  Forall (fun u => NoDup (map fst (Tokens u))) (env_utxos env) ->
  truthy pw = true ->
  consolidate_utxos env w (Some pw) = (Ok tx, tr) ->
  tx_inputs tx = map utxo_ref (env_utxos env) /\
  forall a, a <> lovelace_unit ->
    outputs_qty a (tx_outputs tx) = sum_Z (map (key a) (env_utxos env)).
Proof.
  intros Hnd Ht H. unfold consolidate_utxos in H.
  peel H. destruct a as [all_tokens utxos]. cbv beta iota zeta in H.
  destruct (token_outputs env (payment_address w) (dict_del lovelace_unit all_tokens)
              (qty lovelace_unit all_tokens)) as [outs rem] eqn:Eto.
  rewrite Ht in H. cbv beta iota zeta in H.
  apply finalize_outputs in H as (init & last & fee & Hl & Ho & Hi & Hf).
  simpl in Hl. apply app_inj_tail in Hl as [<- _].
  destruct (balance_ok _ _ _ _ Hm) as [-> ->].
  split; [rewrite Hi; reflexivity|].
  intros a Ha. rewrite Ho, outputs_qty_app.
  change outs with (fst (outs, rem)). rewrite <- Eto.
  rewrite outputs_qty_token_outputs by (apply dict_del_nodup, balance_tokens_nodup).
  rewrite qty_dict_del by exact Ha. rewrite qty_balance_tokens by exact Hnd.
  unfold outputs_qty, sum_Z. simpl. fold (sum_Z (map (key a) (env_utxos env))). lia.
Qed.

Ltac crunch H :=
  repeat (first
   [ match type of H with context [if env_fails ?e ?c then _ else _] =>
       destruct (env_fails e c); simpl in H end
   | match type of H with context [match parse_min_fee ?s with _ => _ end] =>
       destruct (parse_min_fee s); simpl in H end
   | match type of H with context [if (?x <? ?y) then _ else _] =>
       let Eg := fresh "Eg" in destruct (x <? y) eqn:Eg; simpl in H end
   | match type of H with context [match replace_last ?l ?o with _ => _ end] =>
       let Er := fresh "Er" in destruct (replace_last l o) eqn:Er; simpl in H end
   | match type of H with context [utils_token_outputs ?a ?b ?c ?d] =>
       let Eto := fresh "Eto" in destruct (utils_token_outputs a b c d) eqn:Eto; simpl in H end
   | match type of H with context [if ?b then _ else _] =>
       is_var b; destruct b; simpl in H end ]).

Lemma utils_token_outputs_sum addr tl toks r outs r' :
  utils_token_outputs addr tl toks r = (outs, r') -> sum_Z (map out_lovelace outs) + r' = r.
Proof.
  revert r outs. induction toks as [|[k c] toks IH]; intros r outs H; simpl in H.
  - injection H as <- <-. reflexivity.
  - destruct (utils_token_outputs addr tl toks (r - tl)) as [o rr] eqn:E.
    injection H as <- ->. specialize (IH _ _ E). unfold sum_Z in *. simpl. lia.
Qed.

(** X17: [CardanoUtils.consolidate_tokens] signs or submits only a final body
    that spends all the wallet's UTxOs, whose outputs and fee account for
    all their lovelace, and whose change output keeps at least
    [minUTxOValue]. *)
Theorem utils_consolidate_tokens_signs_only_above_min env w skd r tr :
  Forall (fun u => NoDup (map fst (Tokens u))) (env_utxos env) ->
  utils_consolidate_tokens env w skd = (r, tr) ->
  In (Sign false) tr \/ In Submit tr ->
  exists outs rem fee draft final,
    build_raws tr = [draft; final] /\
    ba_fee final = fee /\
    ba_args final =
      map (fun u => ArgTxIn (TxHash u) (TxIx u)) (env_utxos env) ++
      map ArgTxOut (outs ++ [mkTxOut (payment_address w) (rem - fee) []]) /\
    sum_Z (map out_lovelace outs) + rem = sum_Z (map (key lovelace_unit) (env_utxos env)) /\
    minUTxOValue (env_params env) <= rem - fee.
Proof.
  intros Hnd H Hin.
  unfold utils_consolidate_tokens, refresh_protocol_parameters, balance, wallet_utxos,
    utils_calculate_min_fee, utils_submit_transaction, query_tip_slot, cli_run,
    set_last, ret, raise in H.
  crunch H.
  all: injection H as <- <-; simpl in Hin.
  all: try (exfalso; intuition discriminate).
  all: match goal with
       | Er : replace_last _ _ = Some _, Eto : utils_token_outputs _ _ _ _ = (?outs, ?rem),
         Eg : (?rem - ?fee <? _) = false |- _ =>
           apply replace_last_spec in Er as (init & last & Hl & ->);
           rewrite map_app, app_assoc in Hl; apply app_inj_tail in Hl as [<- _];
           apply utils_token_outputs_sum in Eto; apply Z.ltb_ge in Eg;
           exists outs, rem, fee; eexists; eexists; split; [reflexivity|];
           split; [reflexivity|]; split; [simpl; rewrite map_app, app_assoc; reflexivity|];
           split; [|exact Eg];
           rewrite <- qty_balance_tokens by exact Hnd; exact Eto
       end.
Qed.

(** X19: [CardanoUtils.mint_nft] never mints: after querying the protocol
    parameters and the UTxOs it calls [filter_utxos] with a [type]
    keyword, which raises [TypeError]; no key is generated and no body is
    built, signed or submitted. *)
Theorem utils_mint_nft_stops_at_filter env asset_name metadata w skd :
  utils_mint_nft env asset_name metadata w skd =
  if env_fails env QueryProtocolParameters
  then (Raise (CliFailure QueryProtocolParameters), [QueryProtocolParameters])
  else if env_fails env (QueryUtxo (payment_address w))
  then (Raise (CliFailure (QueryUtxo (payment_address w))),
        [QueryProtocolParameters; QueryUtxo (payment_address w)])
  else (Raise TypeError, [QueryProtocolParameters; QueryUtxo (payment_address w)]).
Proof.
  unfold utils_mint_nft, refresh_protocol_parameters, wallet_utxos, filter_utxos_call, cli_run.
  destruct (env_fails env QueryProtocolParameters); [reflexivity|].
  destruct (env_fails env (QueryUtxo (payment_address w))); reflexivity.
Qed.

Lemma ttl_slot_ok env ih t :
  fst (ttl_slot env ih) = Ok t ->
  t = match ih with
      | Some s => if Z.eqb s 0 then env_tip_slot env + DEFAULT_TRANSACTION_TTL else s
      | None => env_tip_slot env + DEFAULT_TRANSACTION_TTL
      end.
Proof.
  unfold ttl_slot, query_tip_slot, cli_run, bind, ret.
  destruct ih as [s|]; [destruct (Z.eqb s 0)|];
    try destruct (env_fails env QueryTip); simpl; congruence.
Qed.

Lemma bind_submit_ttl {B} env tx w fee pw ih mint (k : Transaction -> M B) b tr :
  bind (submit env tx w fee pw ih mint) k = (Ok b, tr) ->
  exists ttl tr2,
    fst (ttl_slot env ih) = Ok ttl /\
    k (set_tx_id tx (env_tx_id env)) = (Ok b, tr2) /\
    build_raws tr = mkBuildArgs (tx_args tx) fee (Some ttl) mint (tx_metadata tx)
                      (if tx_minting_policy tx then true else false) :: build_raws tr2.
Proof.
  intros H. unfold submit in H. peel H. rename a into ttl.
  apply bind_bind_ok_inv in H as (u & tr1 & tr2 & Ec & H & ->).
  pose proof (cli_run_ok _ _ _ _ Ec) as ->. clear Ec. cbv beta in H.
  peel H. peel H. peel H. peel H.
  assert (Hq : quiet (cli_run env Submit)) by (apply quiet_cli_run; reflexivity).
  destruct (bind_bind_ok_quiet _ _ k _ _ Hq H) as (a' & tr5 & _ & E5 & Hb5).
  rewrite bind_ret_l in E5.
  exists ttl, tr5. split; [exact Hm|split; [exact E5|]].
  rewrite Hb. simpl. rewrite Hb0, Hb1, Hb2, Hb3, Hb5. reflexivity.
Qed.

Lemma mint_final_body_spec env w policy quantity to_address sp mp asset_name metadata
    payment_utxo change_address tx tr :
  mint_tokens env w policy quantity to_address (Some sp) (Some mp) asset_name metadata
    payment_utxo change_address = (Ok tx, tr) ->
  let asset_id := match asset_name with
                  | Some n => if truthy n then (policy_id policy ++ "." ++ n)%string
                              else policy_id policy
                  | None => policy_id policy
                  end in
  exists draft final,
    build_raws tr = [draft; final] /\
    ba_mint final = Some [(quantity, asset_id)] /\
    ba_minting_script final = true /\
    ba_invalid_hereafter final =
      Some (match first_before (policy_scripts policy) with
            | Some s => if Z.eqb s 0 then env_tip_slot env + DEFAULT_TRANSACTION_TTL else s
            | None => env_tip_slot env + DEFAULT_TRANSACTION_TTL
            end) /\
    In (ArgTxOut (mkTxOut to_address (min_dust env [(quantity, asset_id)])
                          [(quantity, asset_id)])) (ba_args final).
Proof.
  intros H asset_id. unfold mint_tokens in H. fold asset_id in H.
  peel H. peel H. cbv beta iota zeta in H.
  apply bind_generate_draft in H as (tr2 & H & Hd). cbv beta in H.
  peel H. rename a1 into fee. peel H. rename a1 into outputs.
  unfold set_last in Hm2. simpl in Hm2.
  injection Hm2 as <-.
  apply bind_submit_ttl in H as (ttl & trs & Httl & H & Hf).
  unfold ret in H. injection H as _ <-.
  apply ttl_slot_ok in Httl.
  eexists; eexists. split.
  - rewrite Hb, Hb0, Hd, Hb1, Hb2, Hf. reflexivity.
  - simpl. rewrite Httl. repeat split.
    unfold tx_args. simpl. right. left. reflexivity.
Qed.

(** X14: a finalised [mint_tokens] submits a final body that mints exactly
    [quantity] of the asset id, uses the minting script, sends the minted
    bundle with its dust to [to_address], and is invalid after the
    policy's first [before] slot when it is non-zero (otherwise tip plus
    the default TTL). *)
Theorem mint_tokens_final_body env w policy quantity to_address sp mp asset_name metadata
    payment_utxo change_address tx tr :
  mint_tokens env w policy quantity to_address (Some sp) (Some mp) asset_name metadata
    payment_utxo change_address = (Ok tx, tr) ->
  let asset_id := match asset_name with
                  | Some n => if truthy n then (policy_id policy ++ "." ++ n)%string
                              else policy_id policy
                  | None => policy_id policy
                  end in
  exists draft final,
    build_raws tr = [draft; final] /\
    ba_mint final = Some [(quantity, asset_id)] /\
    ba_minting_script final = true /\
    ba_invalid_hereafter final =
      Some (match first_before (policy_scripts policy) with
            | Some s => if Z.eqb s 0 then env_tip_slot env + DEFAULT_TRANSACTION_TTL else s
            | None => env_tip_slot env + DEFAULT_TRANSACTION_TTL
            end) /\
    In (ArgTxOut (mkTxOut to_address (min_dust env [(quantity, asset_id)])
                          [(quantity, asset_id)])) (ba_args final).
Proof. exact (mint_final_body_spec env w policy quantity to_address sp mp asset_name metadata
    payment_utxo change_address tx tr). Qed.

(** X5: [filter_utxos] ignores an [exclude] other than lovelace (the result
    is the one without [exclude]), and with neither [include] nor
    [exclude] it returns the empty list. *)
Theorem filter_utxos_exclude_ignored us :
  (forall include e, e <> lovelace_unit ->
     filter_utxos us include (Some e) = filter_utxos us include None) /\
  filter_utxos us None None = [].
Proof.
  split.
  - intros inc e He. induction us as [|u us IH]; simpl; [reflexivity|].
    rewrite IH, (proj2 (String.eqb_neq e lovelace_unit) He). reflexivity.
  - induction us as [|u us IH]; simpl; [reflexivity|exact IH].
Qed.

Lemma create_policy_first_before env password ib ih st p st' :
  create_policy env password ib ih st = (Ok p, st') ->
  first_before (policy_scripts p) =
    match ih with Some s => if Z.eqb s 0 then None else Some s | None => None end.
Proof.
  unfold create_policy.
  destruct (env_fails env AddressKeyGen); [discriminate|].
  destruct (env_fails env AddressKeyHash); [discriminate|].
  destruct (env_fails env TransactionPolicyId); [discriminate|].
  intros H. injection H as <- _. simpl.
  destruct ib as [b|]; [destruct (Z.eqb b 0)|]; destruct ih as [h|];
    try destruct (Z.eqb h 0); reflexivity.
Qed.

(** X15: minting with a policy made by [create_policy] gives a final body
    whose [invalid-hereafter] is the policy's non-zero [invalid_hereafter],
    and the tip plus the default TTL when that was absent or zero. *)
Theorem minting_with_created_policy_expires env password ib ih st p st' w quantity to_address
    sp mp asset_name metadata payment_utxo change_address tx tr :
  create_policy env password ib ih st = (Ok p, st') ->
  mint_tokens env w p quantity to_address (Some sp) (Some mp) asset_name metadata
    payment_utxo change_address = (Ok tx, tr) ->
  exists draft final,
    build_raws tr = [draft; final] /\
    ba_invalid_hereafter final =
      Some (match ih with
            | Some h => if Z.eqb h 0 then env_tip_slot env + DEFAULT_TRANSACTION_TTL else h
            | None => env_tip_slot env + DEFAULT_TRANSACTION_TTL
            end).
Proof.
  intros Hc Hm.
  destruct (mint_final_body_spec _ _ _ _ _ _ _ _ _ _ _ _ _ Hm)
    as (draft & final & Hb & _ & _ & Hih & _).
  exists draft, final. split; [exact Hb|]. rewrite Hih, (create_policy_first_before _ _ _ _ _ _ _ Hc).
  destruct ih as [h|]; [destruct (Z.eqb h 0) eqn:E|]; try rewrite E; reflexivity.
Qed.

(** X13: a finalised [partition_lovelace] pays each requested value, in
    order, to the wallet's own address, followed by one output with the
    surplus lovelace minus the fee. *)
Theorem partition_lovelace_outputs env w values pw tx tr :
  partition_lovelace env w values (Some pw) = (Ok tx, tr) ->
  exists fee,
    final_fee tr = Some fee /\
    tx_outputs tx =
      map (fun v => mkTxOut (payment_address w) v []) values ++
      [mkTxOut (payment_address w)
         (sum_Z (map (key lovelace_unit)
                   (filter_utxos (env_utxos env) (Some lovelace_unit) None))
          - sum_Z values - fee) []].
Proof.
  intros H. unfold partition_lovelace in H.
  peel H. peel H. cbv beta iota zeta in H.
  apply finalize_outputs in H as (init & last & fee & Hl & Ho & Hi & Hf).
  simpl in Hl. apply app_inj_tail in Hl as [<- _].
  apply wallet_lovelace_utxos_ok' in Hm. apply sum_lovelace_ok in Hm0. subst a.
  exists fee. split; [fee_from Hf|].
  rewrite Ho, fold_left_sub, Hm0. do 3 f_equal; lia.
Qed.

Lemma replace_last_app {A} (l : list A) x y : replace_last (l ++ [x]) y = Some (l ++ [y]).
Proof.
  induction l as [|a l IH]; [reflexivity|].
  change ((a :: l) ++ [x]) with (a :: (l ++ [x])).
  cbn [replace_last]. rewrite IH. destruct l; reflexivity.
Qed.

Lemma utils_token_outputs_rem addr tl toks r outs r' :
  utils_token_outputs addr tl toks r = (outs, r') -> r' = r - tl * Z.of_nat (List.length toks).
Proof.
  revert r outs. induction toks as [|[k c] toks IH]; intros r outs H; simpl in H.
  - injection H as _ <-. simpl. lia.
  - destruct (utils_token_outputs addr tl toks (r - tl)) as [o rr] eqn:E.
    injection H as _ ->. rewrite (IH _ _ E). cbn [List.length]. lia.
Qed.

(** X18: when every command succeeds and the fee parses,
    [CardanoUtils.consolidate_tokens] raises the insufficient-lovelace
    error exactly when the lovelace left after two [minUTxOValue] per
    asset and the fee is below [minUTxOValue]; otherwise it completes,
    unless the signing key cannot be written. *)
Theorem utils_consolidate_tokens_outcome env w skd fee :
  Forall (fun u => NoDup (map fst (Tokens u))) (env_utxos env) ->
  (forall c, env_fails env c = false) ->
  parse_min_fee (env_min_fee_response env) = Some fee ->
  let min_utxo_value := minUTxOValue (env_params env) in
  let remaining := sum_Z (map (key lovelace_unit) (env_utxos env))
                   - min_utxo_value * 2
                     * Z.of_nat (List.length (dict_del lovelace_unit (balance_tokens (env_utxos env)))) in
  fst (utils_consolidate_tokens env w skd) =
    if remaining - fee <? min_utxo_value
    then Raise (InsufficientFunds "Insufficient lovelace available to perform consolidation.")
    else if skd then Ok tt else Raise TypeError.
Proof.
  intros Hnd Hcli Hfee min_utxo_value remaining.
  unfold utils_consolidate_tokens, refresh_protocol_parameters, balance, wallet_utxos,
    utils_calculate_min_fee, utils_submit_transaction, query_tip_slot, cli_run, set_last,
    ret, raise.
  rewrite !Hcli. simpl. rewrite Hfee.
  match goal with |- context [utils_token_outputs ?a ?b ?c ?d] =>
    destruct (utils_token_outputs a b c d) as [outs rem] eqn:Eto end.
  apply utils_token_outputs_rem in Eto.
  rewrite (qty_balance_tokens _ _ Hnd) in Eto.
  replace rem with remaining by (subst remaining min_utxo_value; lia).
  rewrite !Hcli. simpl.
  unfold min_utxo_value. destruct (remaining - fee <? minUTxOValue (env_params env)); [reflexivity|].
  rewrite map_app. cbn [map]. rewrite app_assoc, replace_last_app. simpl. rewrite !Hcli. simpl.
  destruct skd; simpl; rewrite ?Hcli; reflexivity.
Qed.

Ltac crunch_all H :=
  repeat (first
   [ match type of H with context [if ?b then _ else _] =>
       let E := fresh "E" in destruct b eqn:E; simpl in H end
   | match type of H with context [match ?x with Some _ => _ | None => _ end] =>
       let E := fresh "E" in destruct x eqn:E; simpl in H end ]).

(** X16: [submit] signs only after the wallet key decrypts, adds the policy
    signing key exactly when the transaction has a minting policy and a
    non-empty minting password that decrypts it, and runs
    [transaction submit] last, right after signing and [txid]. *)
Theorem submit_signing_keys env tx w fee pw ih mint r tr :
  submit env tx w fee pw ih mint = (r, tr) ->
  (forall b, In (Sign b) tr ->
     env_opens_wallet_key env pw = true /\
     (b = true <-> exists p mp, tx_minting_policy tx = Some p /\
                     tx_minting_password tx = Some mp /\ truthy mp = true /\
                     env_opens_policy_key env mp = true)) /\
  (In Submit tr -> exists pre b, tr = pre ++ [Sign b; TxId; Submit]).
Proof.
  intros H.
  unfold submit, ttl_slot, query_tip_slot, cli_run, ret, raise in H. simpl in H.
  crunch_all H.
  all: injection H as <- <-.
  all: split; [intros b Hin; simpl in Hin|intros Hin; simpl in Hin].
  all: try (exfalso; intuition discriminate).
  all: try (repeat match goal with Hd : _ \/ _ |- _ => destruct Hd as [Hd|Hd] end;
          try discriminate; try contradiction;
          match goal with Hs : Sign _ = Sign _ |- _ => injection Hs as <- end;
          split; [assumption || reflexivity|];
          split; [intros Hb; try discriminate; do 2 eexists; repeat split; eassumption || reflexivity
                 |intros (p & mp & Hp & Hmp & Ht & Ho); congruence]).
  all: solve [ exists []; eexists; reflexivity | eexists [_]; eexists; reflexivity
             | eexists [_; _]; eexists; reflexivity ].
Qed.

(** ** Witnesses of the extra properties *)
Lemma lovelace_token_utxos_partition_witness :
  let e := ex_env [ex_u1; ex_u2; ex_small] "170000 Lovelace" cli_ok in
  (forall u, In u (env_utxos e) -> List.length (Tokens u) = 1%nat ->
             holds lovelace_unit u = true) /\
  fst (wallet_lovelace_utxos e ex_wallet) = Ok [ex_u1; ex_small] /\
  fst (wallet_token_utxos e ex_wallet) = Ok [ex_u2] /\
  Permutation ([ex_u1; ex_small] ++ [ex_u2]) (env_utxos e).
Proof.
  intros e.
  assert (H1 : forall u, In u (env_utxos e) -> List.length (Tokens u) = 1%nat ->
                         holds lovelace_unit u = true).
  { intros u [<-|[<-|[<-|[]]]]; intros Hl; reflexivity || discriminate Hl. }
  assert (H2 : fst (wallet_lovelace_utxos e ex_wallet) = Ok [ex_u1; ex_small]) by reflexivity.
  assert (H3 : fst (wallet_token_utxos e ex_wallet) = Ok [ex_u2]) by reflexivity.
  split; [exact H1|split; [exact H2|split; [exact H3|]]].
  exact (lovelace_token_utxos_partition e ex_wallet _ _ H1 H2 H3).
Defined.

Lemma sort_utxos_stable_witness :
  sort_utxos [ex_small; ex_u2; ex_u1; ex_token_only] lovelace_unit "desc"
    = Some [ex_u1; ex_u2; ex_token_only; ex_small] /\
  forall k, filter (fun u => key lovelace_unit u =? k) [ex_u1; ex_u2; ex_token_only; ex_small]
            = filter (fun u => key lovelace_unit u =? k) [ex_small; ex_u2; ex_u1; ex_token_only].
Proof.
  assert (H : sort_utxos [ex_small; ex_u2; ex_u1; ex_token_only] lovelace_unit "desc"
              = Some [ex_u1; ex_u2; ex_token_only; ex_small]) by reflexivity.
  split; [exact H|exact (sort_utxos_stable _ _ _ _ H)].
Defined.

Lemma filter_utxos_exclude_ignored_witness :
  "pB.B"%string <> lovelace_unit /\
  filter_utxos [ex_u1; ex_u2] (Some "pA.A"%string) (Some "pB.B"%string)
    = filter_utxos [ex_u1; ex_u2] (Some "pA.A"%string) None.
Proof.
  assert (H : "pB.B"%string <> lovelace_unit) by (unfold lovelace_unit; discriminate).
  split; [exact H|exact (proj1 (filter_utxos_exclude_ignored [ex_u1; ex_u2]) _ _ H)].
Defined.

Lemma ex_rows_well_formed : Forall well_formed_row ex_rows.
Proof.
  repeat constructor; try discriminate; simpl; intuition discriminate.
Qed.

Lemma utxos_of_response_round_trip_witness :
  all_chars (fun c => negb (Ascii.eqb c newline)) ex_header = true /\
  all_chars (fun c => negb (Ascii.eqb c newline)) ex_rule = true /\
  Forall well_formed_row ex_rows /\
  utxos_of_response (render_table ex_header ex_rule (map render_row ex_rows))
    = inr (map row_utxo ex_rows).
Proof.
  assert (H1 : all_chars (fun c => negb (Ascii.eqb c newline)) ex_header = true) by reflexivity.
  assert (H2 : all_chars (fun c => negb (Ascii.eqb c newline)) ex_rule = true) by reflexivity.
  split; [exact H1|split; [exact H2|split; [exact ex_rows_well_formed|]]].
  exact (utxos_of_response_round_trip _ _ _ H1 H2 ex_rows_well_formed).
Defined.

Lemma parse_utxo_line_bad_amount_witness :
  well_formed_row ("abc", "0", [("1000000", "lovelace")])%string /\
  all_chars is_alphanumeric "TxOutDatumNone" = true /\
  head_fails is_digit "TxOutDatumNone" /\
  parse_utxo_line (render_row ("abc", "0", [("1000000", "lovelace")])%string
                   ++ " + " ++ "TxOutDatumNone") = inl PyValueError.
Proof.
  assert (H1 : well_formed_row ("abc", "0", [("1000000", "lovelace")])%string).
  { repeat constructor; try discriminate; simpl; intuition discriminate. }
  assert (H2 : all_chars is_alphanumeric "TxOutDatumNone" = true) by reflexivity.
  assert (H3 : head_fails is_digit "TxOutDatumNone") by reflexivity.
  split; [exact H1|split; [exact H2|split; [exact H3|]]].
  exact (parse_utxo_line_bad_amount _ _ H1 H2 H3).
Defined.

Lemma use_cases_conserve_lovelace_witness :
  truthy "pw" = true /\
  match send_lovelace (ex_env [ex_u1; ex_u2] "170000 Lovelace" cli_ok) ex_wallet
          4000000 "addr_to" (Some "pw"%string) with
  | (Ok tx, tr) => lovelace_conserved [ex_u1; ex_u2] tr tx
  | (Raise _, _) => False
  end.
Proof.
  split; [reflexivity|].
  destruct (send_lovelace (ex_env [ex_u1; ex_u2] "170000 Lovelace" cli_ok) ex_wallet
              4000000 "addr_to" (Some "pw"%string)) as [[tx|err] tr] eqn:E.
  - exact (proj1 (use_cases_conserve_lovelace (ex_env [ex_u1; ex_u2] "170000 Lovelace" cli_ok)
                    ex_wallet) 4000000 "addr_to"%string "pw"%string tx tr eq_refl E).
  - vm_compute in E. discriminate E.
Defined.

Lemma consolidate_utxos_conserves_tokens_witness :
  let e := ex_env [ex_u1; ex_u2] "170000 Lovelace" cli_ok in
  Forall (fun u => NoDup (map fst (Tokens u))) (env_utxos e) /\
  truthy "pw" = true /\
  match consolidate_utxos e ex_wallet (Some "pw"%string) with
  | (Ok tx, tr) =>
      tx_inputs tx = map utxo_ref (env_utxos e) /\
      forall a, a <> lovelace_unit ->
        outputs_qty a (tx_outputs tx) = sum_Z (map (key a) (env_utxos e))
  | (Raise _, _) => False
  end.
Proof.
  intros e.
  assert (H1 : Forall (fun u => NoDup (map fst (Tokens u))) (env_utxos e)).
  { repeat constructor; simpl; intuition discriminate. }
  split; [exact H1|split; [reflexivity|]].
  destruct (consolidate_utxos e ex_wallet (Some "pw"%string)) as [[tx|err] tr] eqn:E.
  - exact (consolidate_utxos_conserves_tokens e ex_wallet "pw" tx tr H1 eq_refl E).
  - vm_compute in E. discriminate E.
Defined.

Lemma partition_lovelace_outputs_witness :
  let e := ex_env [ex_u1] "170000 Lovelace" cli_ok in
  match partition_lovelace e ex_wallet [1000000; 2000000] (Some "pw"%string) with
  | (Ok tx, tr) =>
      exists fee,
        final_fee tr = Some fee /\
        tx_outputs tx =
          map (fun v => mkTxOut (payment_address ex_wallet) v []) [1000000; 2000000] ++
          [mkTxOut (payment_address ex_wallet)
             (sum_Z (map (key lovelace_unit)
                       (filter_utxos (env_utxos e) (Some lovelace_unit) None))
              - sum_Z [1000000; 2000000] - fee) []]
  | (Raise _, _) => False
  end.
Proof.
  intros e.
  destruct (partition_lovelace e ex_wallet [1000000; 2000000] (Some "pw"%string))
    as [[tx|err] tr] eqn:E.
  - exact (partition_lovelace_outputs e ex_wallet _ "pw" tx tr E).
  - vm_compute in E. discriminate E.
Defined.

Lemma mint_tokens_final_body_witness :
  let e := ex_env [ex_u1] "170000 Lovelace" cli_ok in
  match mint_tokens e ex_wallet ex_policy 1 "addr_to" (Some "pw"%string) (Some "mpw"%string)
          (Some "Tok"%string) None (Some ex_u1) None with
  | (Ok tx, tr) =>
      exists draft final,
        build_raws tr = [draft; final] /\
        ba_mint final = Some [(1, "policyid.Tok"%string)] /\
        ba_minting_script final = true /\
        ba_invalid_hereafter final = Some 900 /\
        In (ArgTxOut (mkTxOut "addr_to" (min_dust e [(1, "policyid.Tok"%string)])
                              [(1, "policyid.Tok"%string)])) (ba_args final)
  | (Raise _, _) => False
  end.
Proof.
  intros e.
  destruct (mint_tokens e ex_wallet ex_policy 1 "addr_to" (Some "pw"%string) (Some "mpw"%string)
              (Some "Tok"%string) None (Some ex_u1) None) as [[tx|err] tr] eqn:E.
  - exact (mint_tokens_final_body e ex_wallet ex_policy 1 "addr_to" "pw" "mpw" _ None
             (Some ex_u1) None tx tr E).
  - vm_compute in E. discriminate E.
Defined.

Lemma minting_with_created_policy_expires_witness :
  let e := ex_env [ex_u1] "170000 Lovelace" cli_ok in
  let st' := mkStore [ex_policy]
               ["signing.key.aes"; "verification.key.aes"; "policy.script.json"]%string in
  create_policy e "pw" None (Some 900) (mkStore [] []) = (Ok ex_policy, st') /\
  match mint_tokens e ex_wallet ex_policy 1 "addr_to" (Some "pw"%string) (Some "mpw"%string)
          (Some "Tok"%string) None None None with
  | (Ok tx, tr) =>
      exists draft final, build_raws tr = [draft; final] /\ ba_invalid_hereafter final = Some 900
  | (Raise _, _) => False
  end.
Proof.
  intros e st'.
  assert (Hc : create_policy e "pw" None (Some 900) (mkStore [] []) = (Ok ex_policy, st'))
    by reflexivity.
  split; [exact Hc|].
  destruct (mint_tokens e ex_wallet ex_policy 1 "addr_to" (Some "pw"%string) (Some "mpw"%string)
              (Some "Tok"%string) None None None) as [[tx|err] tr] eqn:E.
  - exact (minting_with_created_policy_expires e "pw" None (Some 900) (mkStore [] []) ex_policy st'
             ex_wallet 1 "addr_to" "pw" "mpw" _ None None None tx tr Hc E).
  - vm_compute in E. discriminate E.
Defined.

Lemma submit_signing_keys_witness :
  let e := ex_env [ex_u1] "170000 Lovelace" cli_ok in
  let tx := set_minting ex_drafted_tx ex_policy (Some "mpw"%string) in
  match submit e tx ex_wallet 170000 "pw" None None with
  | (r, tr) =>
      (forall b, In (Sign b) tr ->
         env_opens_wallet_key e "pw" = true /\
         (b = true <-> exists p mp, tx_minting_policy tx = Some p /\
                         tx_minting_password tx = Some mp /\ truthy mp = true /\
                         env_opens_policy_key e mp = true)) /\
      (In Submit tr -> exists pre b, tr = pre ++ [Sign b; TxId; Submit])
  end.
Proof.
  intros e tx.
  destruct (submit e tx ex_wallet 170000 "pw" None None) as [r tr] eqn:E.
  exact (submit_signing_keys e tx ex_wallet 170000 "pw" None None r tr E).
Defined.

Lemma utils_consolidate_tokens_signs_only_above_min_witness :
  let e := ex_env [ex_u1; ex_u2] "170000 Lovelace" cli_ok in
  Forall (fun u => NoDup (map fst (Tokens u))) (env_utxos e) /\
  match utils_consolidate_tokens e ex_wallet true with
  | (r, tr) =>
      (In (Sign false) tr \/ In Submit tr) /\
      exists outs rem fee draft final,
        build_raws tr = [draft; final] /\
        ba_fee final = fee /\
        ba_args final =
          map (fun u => ArgTxIn (TxHash u) (TxIx u)) (env_utxos e) ++
          map ArgTxOut (outs ++ [mkTxOut (payment_address ex_wallet) (rem - fee) []]) /\
        sum_Z (map out_lovelace outs) + rem = sum_Z (map (key lovelace_unit) (env_utxos e)) /\
        minUTxOValue (env_params e) <= rem - fee
  end.
Proof.
  intros e.
  assert (H1 : Forall (fun u => NoDup (map fst (Tokens u))) (env_utxos e)).
  { repeat constructor; simpl; intuition discriminate. }
  assert (Hin : In (Sign false) (snd (utils_consolidate_tokens e ex_wallet true))).
  { vm_compute. tauto. }
  split; [exact H1|].
  destruct (utils_consolidate_tokens e ex_wallet true) as [r tr] eqn:E.
  simpl in Hin. split; [left; exact Hin|].
  exact (utils_consolidate_tokens_signs_only_above_min e ex_wallet true r tr H1 E (or_introl Hin)).
Defined.

Lemma utils_consolidate_tokens_outcome_witness :
  let e := ex_env [ex_u1; ex_u2] "170000 Lovelace" cli_ok in
  Forall (fun u => NoDup (map fst (Tokens u))) (env_utxos e) /\
  (forall c, env_fails e c = false) /\
  parse_min_fee (env_min_fee_response e) = Some 170000 /\
  fst (utils_consolidate_tokens e ex_wallet true) = Ok tt.
Proof.
  intros e.
  assert (H1 : Forall (fun u => NoDup (map fst (Tokens u))) (env_utxos e)).
  { repeat constructor; simpl; intuition discriminate. }
  assert (H2 : forall c, env_fails e c = false) by reflexivity.
  assert (H3 : parse_min_fee (env_min_fee_response e) = Some 170000) by reflexivity.
  split; [exact H1|split; [exact H2|split; [exact H3|]]].
  exact (utils_consolidate_tokens_outcome e ex_wallet true 170000 H1 H2 H3).
Defined.
